(** * cudawesome: CUDA kernels and their host harnesses

    A shallow embedding of the kernels ([vectorAdd], [matrixAdd], [add],
    [matrixMul]) and of the host programs that launch them, together with
    the properties of the grid/block partitioning, of the buffer
    lifecycle and of the result verification.

    Conventions.
    - An [unsigned int] is a [Z] in [0, 2^32); every unsigned operation of
      the source is followed by [uint32], its wrap-around.  An [int] is a
      [Z] in [-2^31, 2^31); [int32] is its two's-complement wrap-around.
    - A device or host pointer [T *p] is the function [Z -> T] giving the
      element stored at each offset.
    - One execution of a kernel body by one thread yields the store that
      thread performs, if any ([option (Z * T)]): the offset into [c] and
      the value stored. *)

From Stdlib Require Import ZArith List Lia Bool String.
From Stdlib Require Import SpecFloat.
Import ListNotations.
Local Open Scope Z_scope.

(** ** Machine integers *)

Module Machine.

Definition uint32 (v : Z) : Z := v mod 2 ^ 32.

Definition int32 (v : Z) : Z := (v + 2 ^ 31) mod 2 ^ 32 - 2 ^ 31.

Definition is_uint32 (v : Z) : Prop := 0 <= v < 2 ^ 32.

Definition is_int32 (v : Z) : Prop := - 2 ^ 31 <= v < 2 ^ 31.

(** C++ [max] on two [unsigned int]. *)
Definition max (u v : Z) : Z := if u <? v then v else u.

End Machine.

Import Machine.

(** ** Launch geometry *)

(** CUDA's [dim3]; the constructors [dim3(x)] and [dim3(x, y)] default the
    missing components to 1. *)
Record dim3 : Type := mk_dim3 { dim_x : Z; dim_y : Z; dim_z : Z }.

Definition dim3_1 (vx : Z) : dim3 := mk_dim3 vx 1 1.
Definition dim3_2 (vx vy : Z) : dim3 := mk_dim3 vx vy 1.

(** A thread of a launch: its [blockIdx] and its [threadIdx]. *)
Record thread : Type := mk_thread { blockIdx : dim3; threadIdx : dim3 }.

(** [t] belongs to the launch [<<< gridDim, blockDim >>>]. *)
Definition in_launch (gridDim blockDim : dim3) (t : thread) : Prop :=
  0 <= dim_x (blockIdx t) < dim_x gridDim /\
  0 <= dim_y (blockIdx t) < dim_y gridDim /\
  0 <= dim_z (blockIdx t) < dim_z gridDim /\
  0 <= dim_x (threadIdx t) < dim_x blockDim /\
  0 <= dim_y (threadIdx t) < dim_y blockDim /\
  0 <= dim_z (threadIdx t) < dim_z blockDim.

(** The integers [lo, lo+1, ..., lo+n-1]. *)
Fixpoint zrange (lo : Z) (n : nat) : list Z :=
  match n with
  | O => []
  | S n' => lo :: zrange (lo + 1) n'
  end.

Definition indices (extent : dim3) : list dim3 :=
  flat_map (fun vz =>
    flat_map (fun vy =>
      map (fun vx => mk_dim3 vx vy vz) (zrange 0 (Z.to_nat (dim_x extent))))
      (zrange 0 (Z.to_nat (dim_y extent))))
    (zrange 0 (Z.to_nat (dim_z extent))).

(** All the threads of a launch, block after block. *)
Definition threads (gridDim blockDim : dim3) : list thread :=
  flat_map (fun bi => map (fun ti => mk_thread bi ti) (indices blockDim))
           (indices gridDim).

(** ** Memory *)

Definition store {T : Type} (c : Z -> T) (w : option (Z * T)) : Z -> T :=
  match w with
  | None => c
  | Some (pos, val) => fun i => if i =? pos then val else c i
  end.

(** Running a kernel over a launch: every thread's store is applied to
    [c].  The threads are taken one after the other; the kernels below
    never read [c]. *)
Definition launch {T : Type} (kernel : thread -> option (Z * T))
    (gridDim blockDim : dim3) (c : Z -> T) : Z -> T :=
  fold_left (fun m t => store m (kernel t)) (threads gridDim blockDim) c.

(** [memcpy] of [count] elements from [src] to [dst]. *)
Definition memcpy {T : Type} (dst src : Z -> T) (count : Z) : Z -> T :=
  fun i => if (0 <=? i) && (i <? count) then src i else dst i.

(** ** Kernels *)

(** The global thread coordinate along x and along y, as every kernel
    computes it: [blockIdx.x * blockDim.x + threadIdx.x]. *)
Definition coord_x (blockDim : dim3) (t : thread) : Z :=
  uint32 (dim_x (blockIdx t) * dim_x blockDim + dim_x (threadIdx t)).

Definition coord_y (blockDim : dim3) (t : thread) : Z :=
  uint32 (dim_y (blockIdx t) * dim_y blockDim + dim_y (threadIdx t)).


(** The mathematical sum [f lo + f (lo+1) + ... + f (lo+n-1)]. *)
Fixpoint zsum (f : Z -> Z) (lo : Z) (n : nat) : Z :=
  match n with
  | O => 0
  | S n' => f lo + zsum f (lo + 1) n'
  end.

(** The entry of the product of [a] (dimY1 rows of dimX1 ints) and [b]
    (dimX1 rows of dimX2 ints) in row [iY], column [iX]. *)
Definition dot (a b : Z -> Z) (dimX1 dimX2 iX iY : Z) : Z :=
  zsum (fun k => a (iY * dimX1 + k) * b (k * dimX2 + iX)) 0 (Z.to_nat dimX1).

(** ** Floating-point elements *)

(** [REAL] is [float] or, when the source is compiled with [-DDOUBLE],
    [double]; both are IEEE 754 binary formats, given by [SpecFloat]. *)
Module Real.

Inductive precision : Type := Single | Double.

Definition prec (P : precision) : Z :=
  match P with Single => 24 | Double => 53 end.

Definition emax (P : precision) : Z :=
  match P with Single => 128 | Double => 1024 end.

Definition sizeof (P : precision) : Z :=
  match P with Single => 4 | Double => 8 end.

Definition REAL : Type := spec_float.

Definition add (P : precision) (u v : REAL) : REAL := SFadd (prec P) (emax P) u v.

Definition sub (P : precision) (u v : REAL) : REAL := SFsub (prec P) (emax P) u v.

(** [#define EPSILON (float)1e-5]: the binary32 number nearest to 1e-5,
    10995116 * 2^-40 (bit pattern 0x3727C5AC).  Passed to a [double]
    parameter it keeps its value. *)
Definition EPSILON : REAL := S754_finite false 10995116 (-40).

End Real.

(** ** The host side: CUDA runtime calls, process exit, output *)

Module Host.

Inductive buffer : Type := dev_a | dev_b | dev_c.

Inductive hostptr : Type := host_a | host_b | host_c | host_expected.

Inductive cudaMemcpyKind : Type :=
  cudaMemcpyHostToDevice | cudaMemcpyDeviceToHost.

(** What the programs print.  The format strings of the source are
    - [Usage]: "Usage: %s ..."
    - [ExpectedGE1 v got]: "Error: v expected >= 1, got %d"
    - [ExpectedEqual v u want got]: "Error: v expected = u (%d), got %d"
    - [ExpectedPowerOf2 v got]: "Error: v expected as power of 2, got %d"
    - [Banner title]: the block of [printf] calls showing the title, the
      dimensions and the grid and block sizes
    - [Mismatch got]: "error: expected %d, got %d!" of addvec_threads.cu,
      with [got] the first argument, [c[i]]; the second argument of the
      source, [d[i]], names an array the file does not declare
    - [Correct], [Error]: the verdict. *)
Inductive message : Type :=
  | Usage
  | ExpectedGE1 (name : string) (got : Z)
  | ExpectedEqual (name other : string) (want got : Z)
  | ExpectedPowerOf2 (name : string) (got : Z)
  | Banner (title : string)
  | Mismatch (got : Z)
  | Correct
  | Error.

Inductive call : Type :=
  | cudaGetDeviceProperties
  | cudaMalloc (p : buffer) (size : Z)
  | cudaMallocHost (p : hostptr) (size : Z)
  | malloc (p : hostptr) (size : Z)
  | cudaMemcpy (p : buffer) (size : Z) (kind : cudaMemcpyKind)
  | cudaMemcpyAsync (p : buffer) (size : Z) (kind : cudaMemcpyKind)
  | kernel_launch (gridDim blockDim : dim3)
  | cudaFree (p : buffer)
  | cudaFreeHost (p : hostptr)
  | free (p : hostptr)
  | fprintf_stderr (m : message)
  | printf (m : message).

Definition buffer_eqb (p q : buffer) : bool :=
  match p, q with
  | dev_a, dev_a | dev_b, dev_b | dev_c, dev_c => true
  | _, _ => false
  end.

(** The world a program runs in.  [oracle n] tells whether the [n]-th call
    of the run (counting from 0) succeeds: CUDA calls return
    [cudaSuccess], [malloc] returns a non-null pointer.  [trace] records
    the calls made so far with their results, in program order; the
    device serves the calls of the one (default) stream in that order.
    [outstanding] lists the device buffers allocated and not yet freed.
    The limits of the device on grid and block sizes are not part of the
    model: a launch runs the threads of its geometry. *)
Record world : Type := mk_world {
  oracle : nat -> bool;
  trace : list (call * bool);
  outstanding : list buffer
}.

Definition boot (env : nat -> bool) : world := mk_world env [] [].

(** The effect of a call on the set of outstanding device buffers. *)
Definition account (c : call) (ok : bool) (bufs : list buffer) : list buffer :=
  match c, ok with
  | cudaMalloc p _, true => p :: bufs
  | cudaFree p, true => filter (fun q => negb (buffer_eqb p q)) bufs
  | _, _ => bufs
  end.

(** A computation either makes the process exit with a status ([inl]) or
    yields a value ([inr]). *)
Definition M (A : Type) : Type := world -> (Z + A) * world.

Definition ret {A : Type} (v : A) : M A := fun w => (inr v, w).

Definition bind {A B : Type} (m : M A) (k : A -> M B) : M B :=
  fun w =>
    match m w with
    | (inl code, w') => (inl code, w')
    | (inr v, w') => k v w'
    end.

Definition exit {A : Type} (code : Z) : M A := fun w => (inl code, w).

(** A call whose result the program can observe. *)
Definition invoke (c : call) : M bool :=
  fun w =>
    let ok := oracle w (List.length (trace w)) in
    (inr ok, mk_world (oracle w) (trace w ++ [(c, ok)])
                      (account c ok (outstanding w))).

(** A call with no result ([printf], [free], a kernel launch). *)
Definition perform (c : call) : M unit :=
  fun w =>
    (inr tt, mk_world (oracle w) (trace w ++ [(c, true)])
                      (account c true (outstanding w))).

Definition when (cond : bool) (m : M unit) : M unit :=
  if cond then m else ret tt.

(** Modelled from the spec: the macro [HANDLE_ERROR] of common/error.h is
    missing.  The spec calls it a helper translating an error code into a
    failure that is fatal to the operation: a CUDA call that does not
    return [cudaSuccess] ends the process with [EXIT_FAILURE]. *)
Definition HANDLE_ERROR (m : M bool) : M unit :=
  bind m (fun ok => if ok then ret tt else exit 1).

(** Modelled from the spec: the macro [HANDLE_NULL] of common/error.h is
    missing.  As [HANDLE_ERROR], for an allocation that returns a null
    pointer. *)
Definition HANDLE_NULL (m : M bool) : M unit :=
  bind m (fun ok => if ok then ret tt else exit 1).

(** Modelled from the spec: the macro [IS_POWER_OF_2] of common/mathutil.h
    is missing; the spec's words are that the group size must be a power
    of two. *)
Definition IS_POWER_OF_2 (v : Z) : bool :=
  (0 <? v) && (Z.land v (v - 1) =? 0).

(** The grid size of the matrix programs along one axis:
    [g = dim / blockSize; if (g * blockSize < dim) g += 1;]. *)
Definition grid_size_of (dim blockSize : Z) : Z :=
  let g := uint32 (dim / blockSize) in
  if uint32 (g * blockSize) <? dim then uint32 (g + 1) else g.

(** The [i]-th program argument after [atoi] and the conversion to
    [unsigned int]; [ints] holds what [atoi] returns for [argv[1]],
    [argv[2]], ... *)
Definition unsigned_arg (ints : list Z) (i : nat) : Z := uint32 (nth i ints 0).

Definition argc (ints : list Z) : Z := 1 + Z.of_nat (List.length ints).

End Host.

Declare Scope host_scope.
Delimit Scope host_scope with host.
Notation "x <- m ;; k" := (Host.bind m (fun x => k))
  (at level 61, m at next level, right associativity) : host_scope.
Notation "m ;; k" := (Host.bind m (fun _ => k))
  (at level 61, right associativity) : host_scope.

Local Open Scope host_scope.

(** ** Host reference computations and comparisons *)

(** The functions of common/vector.h and common/matrix.h that compute the
    expected result on the host and compare it with the result of the
    device.  Their sources are not in the repository snapshot; those the
    spec describes are modelled from it. *)
Module Reference.

(** Writing [f i] to the first [count] elements of an array. *)
Definition fill {T : Type} (old : Z -> T) (count : Z) (f : Z -> T) : Z -> T :=
  fun i => if (0 <=? i) && (i <? count) then f i else old i.

(** Modelled from the spec: [vector_add_float] and [vector_add_double] of
    common/vector.h are missing; the reference computation is the
    sequential elementwise sum. *)
Definition vector_add (P : Real.precision) (a b expected : Z -> Real.REAL)
    (dim : Z) : Z -> Real.REAL :=
  fill expected dim (fun i => Real.add P (a i) (b i)).

(** Modelled from the spec: [matrix_add_float] and [matrix_add_double] of
    common/matrix.h are missing; the reference computation is the
    sequential elementwise sum over the dimX * dimY elements. *)
Definition matrix_add (P : Real.precision) (a b expected : Z -> Real.REAL)
    (dimX dimY : Z) : Z -> Real.REAL :=
  fill expected (dimX * dimY) (fun i => Real.add P (a i) (b i)).

(** Modelled from the spec: [matrix_mul_int] of common/matrix.h is
    missing; the reference computation is the triple-nested-loop matrix
    product, in [int] arithmetic. *)
Definition matrix_mul_int (a b expected : Z -> Z) (dimX1 dimY1 dimX2 : Z)
    : Z -> Z :=
  fill expected (dimY1 * dimX2)
       (fun i => int32 (dot a b dimX1 dimX2 (i mod dimX2) (i / dimX2))).

(** Modelled from the spec: the test on one element made by the
    comparisons with tolerance, which are missing; an element passes if
    |computed - expected| <= tolerance. *)
Definition within (P : Real.precision) (tolerance computed expected : Real.REAL)
    : bool :=
  SFleb (SFabs (Real.sub P computed expected)) tolerance.

(** Modelled from the spec: [vector_equals_err_float] and
    [vector_equals_err_double] of common/vector.h are missing; every
    element must pass within the tolerance [err] given by the caller. *)
Definition vector_equals_err (P : Real.precision) (u v : Z -> Real.REAL)
    (dim : Z) (err : Real.REAL) : bool :=
  forallb (fun i => within P err (u i) (v i)) (zrange 0 (Z.to_nat dim)).

(** Modelled from the spec: [matrix_equals_err_float] and
    [matrix_equals_err_double] of common/matrix.h are missing; every
    element must pass within the tolerance [err] given by the caller. *)
Definition matrix_equals_err (P : Real.precision) (u v : Z -> Real.REAL)
    (dimX dimY : Z) (err : Real.REAL) : bool :=
  forallb (fun i => within P err (u i) (v i))
          (zrange 0 (Z.to_nat (dimX * dimY))).

(** [matrix_equals_float] and [matrix_equals_double] of common/matrix.h,
    which take two arrays and the dimensions and no tolerance, are
    missing as well, and the spec describes no comparison of
    floating-point results without a tolerance: what they compute is not
    known.  An implementation of them is a value of this type; the
    program that calls them takes it as a parameter. *)
Definition comparison : Type :=
  (Z -> Real.REAL) -> (Z -> Real.REAL) -> Z -> Z -> bool.

(** Modelled from the spec: [matrix_equals_int] of common/matrix.h is
    missing; integer results are compared for exact equality. *)
Definition matrix_equals_int (u v : Z -> Z) (dimX dimY : Z) : bool :=
  forallb (fun i => u i =? v i) (zrange 0 (Z.to_nat (dimX * dimY))).

End Reference.

(** The data a run meets: what the random generators put into [a] and
    [b], and what uninitialised host and device memory holds. *)
Record memory (T : Type) : Type := mk_memory {
  random_a : Z -> T;
  random_b : Z -> T;
  garbage_host : Host.hostptr -> Z -> T;
  garbage_dev : Host.buffer -> Z -> T
}.
Arguments random_a {T} _ _.
Arguments random_b {T} _ _.
Arguments garbage_host {T} _ _ _.
Arguments garbage_dev {T} _ _ _.

(** ** matrix_mul_nxm_int.cu *)

Module MatrixMulNxmInt.
Import Host.

(** The [for] loop of [matrixMul], entered with loop counter [k] and
    accumulator [val]; [fuel] bounds the number of iterations ([dimX1]
    suffices, since [k] starts at 0 and grows by one). *)
Fixpoint matrixMul_loop (a b : Z -> Z) (dimX1 dimX2 iX iY : Z)
    (fuel : nat) (k val : Z) : Z :=
  match fuel with
  | O => val
  | S fuel' =>
      if k <? dimX1 then
        matrixMul_loop a b dimX1 dimX2 iX iY fuel' (uint32 (k + 1))
          (int32 (val + int32 (a (uint32 (uint32 (iY * dimX1) + k))
                               * b (uint32 (uint32 (k * dimX2) + iX)))))
      else val
  end.

Definition matrixMul (a b : Z -> Z) (dimX1 dimY1 dimX2 : Z)
    (blockDim : dim3) (t : thread) : option (Z * Z) :=
  let iX := coord_x blockDim t in
  let iY := coord_y blockDim t in
  if (iX >=? dimX2) || (iY >=? dimY1) then None
  else
    let pos := uint32 (uint32 (iY * dimX2) + iX) in
    let val := matrixMul_loop a b dimX1 dimX2 iX iY (Z.to_nat dimX1) 0 0 in
    Some (pos, val).

Definition sizeof_int : Z := 4.

Definition size_of (dimX dimY : Z) : Z := uint32 (uint32 (dimX * dimY) * sizeof_int).

Definition gpuMatrixMul (mem : memory Z) (a b c : Z -> Z)
    (matrixDimX1 matrixDimY1 matrixDimX2 matrixDimY2 : Z)
    (gridDim blockDim : dim3) : M (Z -> Z) :=
  let size_a := size_of matrixDimX1 matrixDimY1 in
  let size_b := size_of matrixDimX2 matrixDimY2 in
  let size_c := size_of matrixDimY1 matrixDimX2 in
  HANDLE_ERROR (invoke (cudaMalloc dev_a size_a)) ;;
  HANDLE_ERROR (invoke (cudaMalloc dev_b size_b)) ;;
  HANDLE_ERROR (invoke (cudaMalloc dev_c size_c)) ;;
  HANDLE_ERROR (invoke (cudaMemcpy dev_a size_a cudaMemcpyHostToDevice)) ;;
  HANDLE_ERROR (invoke (cudaMemcpy dev_b size_b cudaMemcpyHostToDevice)) ;;
  let on_dev_a := memcpy (garbage_dev mem dev_a) a (size_a / sizeof_int) in
  let on_dev_b := memcpy (garbage_dev mem dev_b) b (size_b / sizeof_int) in
  perform (kernel_launch gridDim blockDim) ;;
  let on_dev_c :=
    launch (matrixMul on_dev_a on_dev_b matrixDimX1 matrixDimY1 matrixDimX2 blockDim)
           gridDim blockDim (garbage_dev mem dev_c) in
  HANDLE_ERROR (invoke (cudaMemcpy dev_c size_c cudaMemcpyDeviceToHost)) ;;
  HANDLE_ERROR (invoke (cudaFree dev_a)) ;;
  HANDLE_ERROR (invoke (cudaFree dev_b)) ;;
  HANDLE_ERROR (invoke (cudaFree dev_c)) ;;
  ret (memcpy c on_dev_c (size_c / sizeof_int)).

Definition gridSizeX (matrixDimX1 matrixDimX2 blockSize : Z) : Z :=
  grid_size_of (max matrixDimX1 matrixDimX2) blockSize.

Definition gridSizeY (matrixDimY1 matrixDimY2 blockSize : Z) : Z :=
  grid_size_of (max matrixDimY1 matrixDimY2) blockSize.

Definition main (ints : list Z) (mem : memory Z) : M Z :=
  when (argc ints <? 6) (perform (fprintf_stderr Usage) ;; exit 1) ;;
  let matrixDimX1 := unsigned_arg ints 0 in
  let matrixDimY1 := unsigned_arg ints 1 in
  let matrixDimX2 := unsigned_arg ints 2 in
  let matrixDimY2 := unsigned_arg ints 3 in
  let blockSize := unsigned_arg ints 4 in
  when (matrixDimX1 <? 1)
    (perform (fprintf_stderr (ExpectedGE1 "matrixDimX1" matrixDimX1)) ;; exit 1) ;;
  when (matrixDimY1 <? 1)
    (perform (fprintf_stderr (ExpectedGE1 "matrixDimY1" matrixDimY1)) ;; exit 1) ;;
  when (matrixDimX2 <? 1)
    (perform (fprintf_stderr (ExpectedGE1 "matrixDimX2" matrixDimX2)) ;; exit 1) ;;
  when (negb (matrixDimY2 =? matrixDimX1))
    (perform (fprintf_stderr
       (ExpectedEqual "matrixDimY2" "matrixDimX1" matrixDimX1 matrixDimY2)) ;;
     exit 1) ;;
  when (negb (IS_POWER_OF_2 blockSize))
    (perform (fprintf_stderr (ExpectedPowerOf2 "blockSize" blockSize)) ;; exit 1) ;;
  let gridDim := dim3_2 (gridSizeX matrixDimX1 matrixDimX2 blockSize)
                        (gridSizeY matrixDimY1 matrixDimY2 blockSize) in
  let blockDim := dim3_2 blockSize blockSize in
  let size_a := size_of matrixDimX1 matrixDimY1 in
  let size_b := size_of matrixDimX2 matrixDimY2 in
  let size_c := size_of matrixDimY1 matrixDimX2 in
  HANDLE_ERROR (invoke cudaGetDeviceProperties) ;;
  perform (printf (Banner "Matrix (NxM) Integer Product")) ;;
  HANDLE_NULL (invoke (malloc host_a size_a)) ;;
  HANDLE_NULL (invoke (malloc host_b size_b)) ;;
  HANDLE_NULL (invoke (malloc host_c size_c)) ;;
  let a := random_a mem in
  let b := random_b mem in
  c <- gpuMatrixMul mem a b (garbage_host mem host_c)
         matrixDimX1 matrixDimY1 matrixDimX2 matrixDimY2 gridDim blockDim ;;
  HANDLE_NULL (invoke (malloc host_expected size_c)) ;;
  let expected :=
    Reference.matrix_mul_int a b (garbage_host mem host_expected)
      matrixDimX1 matrixDimY1 matrixDimX2 in
  let correct := Reference.matrix_equals_int c expected matrixDimX2 matrixDimY1 in
  (if negb correct then perform (fprintf_stderr Error)
   else perform (printf Correct)) ;;
  perform (free host_a) ;;
  perform (free host_b) ;;
  perform (free host_c) ;;
  perform (free host_expected) ;;
  ret 0.

End MatrixMulNxmInt.

(** ** vector_sum_float_opt.cu (the CUDA program of src/add_vector.cu) *)

Module VectorSumFloatOpt.
Import Host.

Definition vectorAdd (P : Real.precision) (a b : Z -> Real.REAL) (dim : Z)
    (blockDim : dim3) (t : thread) : option (Z * Real.REAL) :=
  let pos := coord_x blockDim t in
  if pos >=? dim then None
  else Some (pos, Real.add P (a pos) (b pos)).

Definition size_of (P : Real.precision) (vectorDim : Z) : Z :=
  uint32 (vectorDim * Real.sizeof P).

Definition gpuVectorAdd (P : Real.precision) (mem : memory Real.REAL)
    (a b c : Z -> Real.REAL) (vectorDim : Z) (gridDim blockDim : dim3)
    : M (Z -> Real.REAL) :=
  let size := size_of P vectorDim in
  HANDLE_ERROR (invoke (cudaMalloc dev_a size)) ;;
  HANDLE_ERROR (invoke (cudaMalloc dev_b size)) ;;
  HANDLE_ERROR (invoke (cudaMalloc dev_c size)) ;;
  HANDLE_ERROR (invoke (cudaMemcpyAsync dev_a size cudaMemcpyHostToDevice)) ;;
  HANDLE_ERROR (invoke (cudaMemcpyAsync dev_b size cudaMemcpyHostToDevice)) ;;
  let on_dev_a := memcpy (garbage_dev mem dev_a) a (size / Real.sizeof P) in
  let on_dev_b := memcpy (garbage_dev mem dev_b) b (size / Real.sizeof P) in
  perform (kernel_launch gridDim blockDim) ;;
  let on_dev_c :=
    launch (vectorAdd P on_dev_a on_dev_b vectorDim blockDim)
           gridDim blockDim (garbage_dev mem dev_c) in
  HANDLE_ERROR (invoke (cudaMemcpy dev_c size cudaMemcpyDeviceToHost)) ;;
  HANDLE_ERROR (invoke (cudaFree dev_a)) ;;
  HANDLE_ERROR (invoke (cudaFree dev_b)) ;;
  HANDLE_ERROR (invoke (cudaFree dev_c)) ;;
  ret (memcpy c on_dev_c (size / Real.sizeof P)).

(** [gridSize = (vectorDim + blockSize - 1) / blockSize] *)
Definition gridSize (vectorDim blockSize : Z) : Z :=
  uint32 (uint32 (vectorDim + blockSize - 1) / blockSize).

(** The test of the result at the end of [main]. *)
Definition verification (P : Real.precision) (a b c garbage : Z -> Real.REAL)
    (vectorDim : Z) : bool :=
  let expected := Reference.vector_add P a b garbage vectorDim in
  Reference.vector_equals_err P c expected vectorDim Real.EPSILON.

Definition main (P : Real.precision) (ints : list Z) (mem : memory Real.REAL)
    : M Z :=
  when (argc ints <? 3) (perform (fprintf_stderr Usage) ;; exit 1) ;;
  let vectorDim := unsigned_arg ints 0 in
  let blockSize := unsigned_arg ints 1 in
  when (vectorDim <? 1)
    (perform (fprintf_stderr (ExpectedGE1 "vectorDim" vectorDim)) ;; exit 1) ;;
  when (negb (IS_POWER_OF_2 blockSize))
    (perform (fprintf_stderr (ExpectedPowerOf2 "blockSize" blockSize)) ;; exit 1) ;;
  let gridDim := dim3_1 (gridSize vectorDim blockSize) in
  let blockDim := dim3_1 blockSize in
  let size := size_of P vectorDim in
  HANDLE_ERROR (invoke cudaGetDeviceProperties) ;;
  perform (printf (Banner "Vector Floating-Point Sum")) ;;
  HANDLE_ERROR (invoke (cudaMallocHost host_a size)) ;;
  HANDLE_ERROR (invoke (cudaMallocHost host_b size)) ;;
  HANDLE_ERROR (invoke (cudaMallocHost host_c size)) ;;
  let a := random_a mem in
  let b := random_b mem in
  c <- gpuVectorAdd P mem a b (garbage_host mem host_c) vectorDim gridDim blockDim ;;
  HANDLE_NULL (invoke (malloc host_expected size)) ;;
  let correct := verification P a b c (garbage_host mem host_expected) vectorDim in
  (if negb correct then perform (fprintf_stderr Error)
   else perform (printf Correct)) ;;
  HANDLE_ERROR (invoke (cudaFreeHost host_a)) ;;
  HANDLE_ERROR (invoke (cudaFreeHost host_b)) ;;
  HANDLE_ERROR (invoke (cudaFreeHost host_c)) ;;
  perform (free host_expected) ;;
  ret 0.

End VectorSumFloatOpt.

(** ** matrix_add_nxm_float.cu, the version with a [gpuMatrixAdd] host
    function (src/unnamed/part_000) *)

Module MatrixAddNxmFloat.
Import Host.

Definition matrixAdd (P : Real.precision) (a b : Z -> Real.REAL) (dimX dimY : Z)
    (blockDim : dim3) (t : thread) : option (Z * Real.REAL) :=
  let iX := coord_x blockDim t in
  let iY := coord_y blockDim t in
  if (iX >=? dimX) || (iY >=? dimY) then None
  else
    let pos := uint32 (uint32 (iY * dimX) + iX) in
    Some (pos, Real.add P (a pos) (b pos)).

Definition size_of (P : Real.precision) (matrixDimX matrixDimY : Z) : Z :=
  uint32 (uint32 (matrixDimX * matrixDimY) * Real.sizeof P).

Definition gpuMatrixAdd (P : Real.precision) (mem : memory Real.REAL)
    (a b c : Z -> Real.REAL) (matrixDimX matrixDimY : Z) (gridDim blockDim : dim3)
    : M (Z -> Real.REAL) :=
  let size := size_of P matrixDimX matrixDimY in
  HANDLE_ERROR (invoke (cudaMalloc dev_a size)) ;;
  HANDLE_ERROR (invoke (cudaMalloc dev_b size)) ;;
  HANDLE_ERROR (invoke (cudaMalloc dev_c size)) ;;
  HANDLE_ERROR (invoke (cudaMemcpy dev_a size cudaMemcpyHostToDevice)) ;;
  HANDLE_ERROR (invoke (cudaMemcpy dev_b size cudaMemcpyHostToDevice)) ;;
  let on_dev_a := memcpy (garbage_dev mem dev_a) a (size / Real.sizeof P) in
  let on_dev_b := memcpy (garbage_dev mem dev_b) b (size / Real.sizeof P) in
  perform (kernel_launch gridDim blockDim) ;;
  let on_dev_c :=
    launch (matrixAdd P on_dev_a on_dev_b matrixDimX matrixDimY blockDim)
           gridDim blockDim (garbage_dev mem dev_c) in
  HANDLE_ERROR (invoke (cudaMemcpy dev_c size cudaMemcpyDeviceToHost)) ;;
  HANDLE_ERROR (invoke (cudaFree dev_a)) ;;
  HANDLE_ERROR (invoke (cudaFree dev_b)) ;;
  HANDLE_ERROR (invoke (cudaFree dev_c)) ;;
  ret (memcpy c on_dev_c (size / Real.sizeof P)).

(** The test of the result at the end of [main]. *)
Definition verification (P : Real.precision) (a b c garbage : Z -> Real.REAL)
    (matrixDimX matrixDimY : Z) : bool :=
  let expected := Reference.matrix_add P a b garbage matrixDimX matrixDimY in
  Reference.matrix_equals_err P c expected matrixDimX matrixDimY Real.EPSILON.

Definition main (P : Real.precision) (ints : list Z) (mem : memory Real.REAL)
    : M Z :=
  when (argc ints <? 4) (perform (fprintf_stderr Usage) ;; exit 1) ;;
  let matrixDimX := unsigned_arg ints 0 in
  let matrixDimY := unsigned_arg ints 1 in
  let blockSize := unsigned_arg ints 2 in
  when (matrixDimX <? 1)
    (perform (fprintf_stderr (ExpectedGE1 "matrixDimX" matrixDimX)) ;; exit 1) ;;
  when (matrixDimY <? 1)
    (perform (fprintf_stderr (ExpectedGE1 "matrixDimY" matrixDimY)) ;; exit 1) ;;
  when (blockSize <? 1)
    (perform (fprintf_stderr (ExpectedGE1 "blockSize" blockSize)) ;; exit 1) ;;
  let gridDim := dim3_2 (grid_size_of matrixDimX blockSize)
                        (grid_size_of matrixDimY blockSize) in
  let blockDim := dim3_2 blockSize blockSize in
  let size := size_of P matrixDimX matrixDimY in
  HANDLE_ERROR (invoke cudaGetDeviceProperties) ;;
  perform (printf (Banner "Matrix (NxM) Floating-Point Sum")) ;;
  HANDLE_NULL (invoke (malloc host_a size)) ;;
  HANDLE_NULL (invoke (malloc host_b size)) ;;
  HANDLE_NULL (invoke (malloc host_c size)) ;;
  let a := random_a mem in
  let b := random_b mem in
  c <- gpuMatrixAdd P mem a b (garbage_host mem host_c)
         matrixDimX matrixDimY gridDim blockDim ;;
  HANDLE_NULL (invoke (malloc host_expected size)) ;;
  let equal :=
    verification P a b c (garbage_host mem host_expected) matrixDimX matrixDimY in
  (if negb equal then perform (fprintf_stderr Error)
   else perform (printf Correct)) ;;
  perform (free host_a) ;;
  perform (free host_b) ;;
  perform (free host_c) ;;
  perform (free host_expected) ;;
  ret 0.

End MatrixAddNxmFloat.

(** ** matrix_add_nxm_float.cu, the version whose [main] drives the device
    itself (src/unnamed/part_001) *)

Module MatrixAddNxmFloatMain.
Import Host.

Definition add (P : Real.precision) (a b : Z -> Real.REAL) (dimX dimY : Z)
    (blockDim : dim3) (t : thread) : option (Z * Real.REAL) :=
  let iX := coord_x blockDim t in
  let iY := coord_y blockDim t in
  if (iX <? dimX) && (iY <? dimY) then
    let pos := uint32 (uint32 (iY * dimX) + iX) in
    Some (pos, Real.add P (a pos) (b pos))
  else None.

Definition size_of (P : Real.precision) (matrixDimX matrixDimY : Z) : Z :=
  uint32 (uint32 (matrixDimX * matrixDimY) * Real.sizeof P).

(** The test of the result at the end of [main]:
    [matrix_add_float(a, b, expected, matrixDimX, matrixDimY)] and then
    [equal = matrix_equals_float(c, expected, matrixDimX, matrixDimY)]
    (the [_double] functions with DOUBLE defined).  [matrix_equals] is
    the implementation of the comparison the program is linked with. *)
Definition verification (matrix_equals : Reference.comparison)
    (P : Real.precision) (a b c garbage : Z -> Real.REAL)
    (matrixDimX matrixDimY : Z) : bool :=
  let expected := Reference.matrix_add P a b garbage matrixDimX matrixDimY in
  matrix_equals c expected matrixDimX matrixDimY.

Definition main (matrix_equals : Reference.comparison)
    (P : Real.precision) (ints : list Z) (mem : memory Real.REAL)
    : M Z :=
  when (argc ints <? 4) (perform (fprintf_stderr Usage) ;; exit 1) ;;
  let matrixDimX := unsigned_arg ints 0 in
  let matrixDimY := unsigned_arg ints 1 in
  let blockSize := unsigned_arg ints 2 in
  when (matrixDimX <? 1)
    (perform (fprintf_stderr (ExpectedGE1 "matrixDimX" matrixDimX)) ;; exit 1) ;;
  when (matrixDimY <? 1)
    (perform (fprintf_stderr (ExpectedGE1 "matrixDimY" matrixDimY)) ;; exit 1) ;;
  when (blockSize <? 1)
    (perform (fprintf_stderr (ExpectedGE1 "blockSize" blockSize)) ;; exit 1) ;;
  let gridDim := dim3_2 (grid_size_of matrixDimX blockSize)
                        (grid_size_of matrixDimY blockSize) in
  let blockDim := dim3_2 blockSize blockSize in
  let size := size_of P matrixDimX matrixDimY in
  HANDLE_ERROR (invoke cudaGetDeviceProperties) ;;
  perform (printf (Banner "Matrix (NxM) Floating-Point Sum")) ;;
  HANDLE_NULL (invoke (malloc host_a size)) ;;
  HANDLE_NULL (invoke (malloc host_b size)) ;;
  HANDLE_NULL (invoke (malloc host_c size)) ;;
  HANDLE_ERROR (invoke (cudaMalloc dev_a size)) ;;
  HANDLE_ERROR (invoke (cudaMalloc dev_b size)) ;;
  HANDLE_ERROR (invoke (cudaMalloc dev_c size)) ;;
  let a := random_a mem in
  let b := random_b mem in
  HANDLE_ERROR (invoke (cudaMemcpy dev_a size cudaMemcpyHostToDevice)) ;;
  HANDLE_ERROR (invoke (cudaMemcpy dev_b size cudaMemcpyHostToDevice)) ;;
  let on_dev_a := memcpy (garbage_dev mem dev_a) a (size / Real.sizeof P) in
  let on_dev_b := memcpy (garbage_dev mem dev_b) b (size / Real.sizeof P) in
  perform (kernel_launch gridDim blockDim) ;;
  let on_dev_c :=
    launch (add P on_dev_a on_dev_b matrixDimX matrixDimY blockDim)
           gridDim blockDim (garbage_dev mem dev_c) in
  HANDLE_ERROR (invoke (cudaMemcpy dev_c size cudaMemcpyDeviceToHost)) ;;
  let c := memcpy (garbage_host mem host_c) on_dev_c (size / Real.sizeof P) in
  HANDLE_NULL (invoke (malloc host_expected size)) ;;
  let equal :=
    verification matrix_equals P a b c (garbage_host mem host_expected)
      matrixDimX matrixDimY in
  (if negb equal then perform (fprintf_stderr Error)
   else perform (printf Correct)) ;;
  perform (free host_a) ;;
  perform (free host_b) ;;
  perform (free host_c) ;;
  perform (free host_expected) ;;
  HANDLE_ERROR (invoke (cudaFree dev_a)) ;;
  HANDLE_ERROR (invoke (cudaFree dev_b)) ;;
  HANDLE_ERROR (invoke (cudaFree dev_c)) ;;
  ret 0.

End MatrixAddNxmFloatMain.

(** ** addvec_threads.cu *)

Module AddvecThreads.
Import Host.

Definition N : Z := 512.

Definition add (a b : Z -> Z) (t : thread) : option (Z * Z) :=
  Some (dim_x (threadIdx t),
        int32 (a (dim_x (threadIdx t)) + b (dim_x (threadIdx t)))).

(** [int size = N * sizeof(int)] *)
Definition size : Z := int32 (N * 4).

Definition gridDim : dim3 := dim3_1 1.
Definition blockDim : dim3 := dim3_1 N.

(** The checking loop: the first [i < N] with [c[i] != a[i] + b[i]]. *)
Definition first_mismatch (a b c : Z -> Z) : option Z :=
  find (fun i => negb (c i =? int32 (a i + b i))) (zrange 0 (Z.to_nat N)).

Definition main (mem : memory Z) : M Z :=
  HANDLE_ERROR (invoke (cudaMalloc dev_a size)) ;;
  HANDLE_ERROR (invoke (cudaMalloc dev_b size)) ;;
  HANDLE_ERROR (invoke (cudaMalloc dev_c size)) ;;
  HANDLE_NULL (invoke (malloc host_a size)) ;;
  HANDLE_NULL (invoke (malloc host_b size)) ;;
  HANDLE_NULL (invoke (malloc host_c size)) ;;
  let a := random_a mem in
  let b := random_b mem in
  HANDLE_ERROR (invoke (cudaMemcpy dev_a size cudaMemcpyHostToDevice)) ;;
  HANDLE_ERROR (invoke (cudaMemcpy dev_b size cudaMemcpyHostToDevice)) ;;
  let on_dev_a := memcpy (garbage_dev mem dev_a) a (size / 4) in
  let on_dev_b := memcpy (garbage_dev mem dev_b) b (size / 4) in
  perform (kernel_launch gridDim blockDim) ;;
  let on_dev_c :=
    launch (add on_dev_a on_dev_b) gridDim blockDim (garbage_dev mem dev_c) in
  HANDLE_ERROR (invoke (cudaMemcpy dev_c size cudaMemcpyDeviceToHost)) ;;
  let c := memcpy (garbage_host mem host_c) on_dev_c (size / 4) in
  match first_mismatch a b c with
  | Some i => perform (printf (Mismatch (c i)))
  | None => ret tt
  end ;;
  perform (free host_a) ;;
  perform (free host_b) ;;
  perform (free host_c) ;;
  HANDLE_ERROR (invoke (cudaFree dev_a)) ;;
  HANDLE_ERROR (invoke (cudaFree dev_b)) ;;
  HANDLE_ERROR (invoke (cudaFree dev_c)) ;;
  ret 0.

End AddvecThreads.

(** ** The programs and the launches they make *)

(** The five programs.  The matrix sum of part_001 comes with the
    implementation of [matrix_equals_float] / [matrix_equals_double] it is
    linked with. *)
Inductive program : Type :=
  | VectorSum (P : Real.precision)
  | MatrixAdd (P : Real.precision)
  | MatrixAddMain (P : Real.precision) (matrix_equals : Reference.comparison)
  | MatrixMul
  | Addvec.

Definition run (p : program) (ints : list Z)
    (fmem : memory Real.REAL) (imem : memory Z) : Host.M Z :=
  match p with
  | VectorSum P => VectorSumFloatOpt.main P ints fmem
  | MatrixAdd P => MatrixAddNxmFloat.main P ints fmem
  | MatrixAddMain P matrix_equals =>
      MatrixAddNxmFloatMain.main matrix_equals P ints fmem
  | MatrixMul => MatrixMulNxmInt.main ints imem
  | Addvec => AddvecThreads.main imem
  end.

(** The least [argc] a program goes on with. *)
Definition wanted_argc (p : program) : Z :=
  match p with
  | VectorSum _ => 3
  | MatrixAdd _ | MatrixAddMain _ _ => 4
  | MatrixMul => 6
  | Addvec => 1
  end.

(** The dimension extents a program is given, as its [unsigned int]
    variables hold them. *)
Definition dimensions (p : program) (ints : list Z) : list Z :=
  match p with
  | VectorSum _ => [Host.unsigned_arg ints 0]
  | MatrixAdd _ | MatrixAddMain _ _ =>
      [Host.unsigned_arg ints 0; Host.unsigned_arg ints 1]
  | MatrixMul =>
      [Host.unsigned_arg ints 0; Host.unsigned_arg ints 1;
       Host.unsigned_arg ints 2; Host.unsigned_arg ints 3]
  | Addvec => []
  end.

(** The requested block size, for the programs that take one. *)
Definition block_size (p : program) (ints : list Z) : option Z :=
  match p with
  | VectorSum _ => Some (Host.unsigned_arg ints 1)
  | MatrixAdd _ | MatrixAddMain _ _ => Some (Host.unsigned_arg ints 2)
  | MatrixMul => Some (Host.unsigned_arg ints 4)
  | Addvec => None
  end.

(** The spec's names for the two kinds of argument errors. *)
Inductive argument_error : Type := InvalidDimension | InvalidGroupShape.

Definition classify (m : Host.message) : option argument_error :=
  match m with
  | Host.ExpectedGE1 _ _ | Host.ExpectedEqual _ _ _ _ => Some InvalidDimension
  | Host.ExpectedPowerOf2 _ _ => Some InvalidGroupShape
  | _ => None
  end.

(** A kernel launch as the sources make it: the kernel, its arguments and
    its geometry.  [add] of addvec_threads.cu is only ever launched as
    [add<<< 1, N >>>]. *)
Inductive dispatch : Type :=
  | LaunchVectorAdd (P : Real.precision) (a b : Z -> Real.REAL) (dim : Z)
      (gridDim blockDim : dim3)
  | LaunchMatrixAdd (P : Real.precision) (a b : Z -> Real.REAL) (dimX dimY : Z)
      (gridDim blockDim : dim3)
  | LaunchAdd (P : Real.precision) (a b : Z -> Real.REAL) (dimX dimY : Z)
      (gridDim blockDim : dim3)
  | LaunchMatrixMul (a b : Z -> Z) (dimX1 dimY1 dimX2 : Z)
      (gridDim blockDim : dim3)
  | LaunchAddThreads (a b : Z -> Z).

Definition grid_of (d : dispatch) : dim3 :=
  match d with
  | LaunchVectorAdd _ _ _ _ g _ | LaunchMatrixAdd _ _ _ _ _ g _
  | LaunchAdd _ _ _ _ _ g _ | LaunchMatrixMul _ _ _ _ _ g _ => g
  | LaunchAddThreads _ _ => AddvecThreads.gridDim
  end.

Definition block_of (d : dispatch) : dim3 :=
  match d with
  | LaunchVectorAdd _ _ _ _ _ k | LaunchMatrixAdd _ _ _ _ _ _ k
  | LaunchAdd _ _ _ _ _ _ k | LaunchMatrixMul _ _ _ _ _ _ k => k
  | LaunchAddThreads _ _ => AddvecThreads.blockDim
  end.

(** The offset into the output that thread [t] of the dispatch stores to,
    if it stores at all. *)
Definition stored_at (d : dispatch) (t : thread) : option Z :=
  match d with
  | LaunchVectorAdd P a b dim _ k =>
      option_map fst (VectorSumFloatOpt.vectorAdd P a b dim k t)
  | LaunchMatrixAdd P a b dimX dimY _ k =>
      option_map fst (MatrixAddNxmFloat.matrixAdd P a b dimX dimY k t)
  | LaunchAdd P a b dimX dimY _ k =>
      option_map fst (MatrixAddNxmFloatMain.add P a b dimX dimY k t)
  | LaunchMatrixMul a b dimX1 dimY1 dimX2 _ k =>
      option_map fst (MatrixMulNxmInt.matrixMul a b dimX1 dimY1 dimX2 k t)
  | LaunchAddThreads a b => option_map fst (AddvecThreads.add a b t)
  end.

(** The coordinate the thread computes falls outside the problem extent. *)
Definition outside_extent (d : dispatch) (t : thread) : Prop :=
  match d with
  | LaunchVectorAdd _ _ _ dim _ k => dim <= coord_x k t
  | LaunchMatrixAdd _ _ _ dimX dimY _ k | LaunchAdd _ _ _ dimX dimY _ k =>
      dimX <= coord_x k t \/ dimY <= coord_y k t
  | LaunchMatrixMul _ _ _ dimY1 dimX2 _ k =>
      dimX2 <= coord_x k t \/ dimY1 <= coord_y k t
  | LaunchAddThreads _ _ => AddvecThreads.N <= dim_x (threadIdx t)
  end.

(** The number of elements of the output. *)
Definition output_elements (d : dispatch) : Z :=
  match d with
  | LaunchVectorAdd _ _ _ dim _ _ => dim
  | LaunchMatrixAdd _ _ _ dimX dimY _ _ | LaunchAdd _ _ _ dimX dimY _ _ =>
      dimX * dimY
  | LaunchMatrixMul _ _ _ dimY1 dimX2 _ _ => dimY1 * dimX2
  | LaunchAddThreads _ _ => AddvecThreads.N
  end.

(** The thread at coordinate (iX, iY) of a two-dimensional launch with
    square blocks. *)
Definition thread_at (blockSize iX iY : Z) : thread :=
  mk_thread (mk_dim3 (iX / blockSize) (iY / blockSize) 0)
            (mk_dim3 (iX mod blockSize) (iY mod blockSize) 0).

(** The smallest [g] with [g * G >= E]. *)
Definition ceil_div (E G : Z) : Z := (E + G - 1) / G.

(** The arguments pass every check of [main]. *)
Definition accepted (p : program) (ints : list Z) : bool :=
  (wanted_argc p <=? Host.argc ints)
  && forallb (fun d => 1 <=? d) (dimensions p ints)
  && match p with
     | VectorSum _ => Host.IS_POWER_OF_2 (Host.unsigned_arg ints 1)
     | MatrixAdd _ | MatrixAddMain _ _ => 1 <=? Host.unsigned_arg ints 2
     | MatrixMul =>
         (Host.unsigned_arg ints 3 =? Host.unsigned_arg ints 0)
         && Host.IS_POWER_OF_2 (Host.unsigned_arg ints 4)
     | Addvec => true
     end.

(** Every dimension argument is valid. *)
Definition valid_dimensions (p : program) (ints : list Z) : Prop :=
  Forall (fun d => 1 <= d) (dimensions p ints)
  /\ (p = MatrixMul -> Host.unsigned_arg ints 3 = Host.unsigned_arg ints 0).

(** The programs that check the block size with [IS_POWER_OF_2]. *)
Definition wants_power_of_2 (p : program) : bool :=
  match p with
  | VectorSum _ | MatrixMul => true
  | MatrixAdd _ | MatrixAddMain _ _ | Addvec => false
  end.

(** The run got past the checks of the arguments: its first call is
    [cudaGetDeviceProperties]. *)
Definition passes_checks (tr : list (Host.call * bool)) : Prop :=
  exists ok rest, tr = (Host.cudaGetDeviceProperties, ok) :: rest.

(** *** Device buffers *)

Definition acquired (tr : list (Host.call * bool)) : list Host.buffer :=
  flat_map (fun e => match e with
                     | (Host.cudaMalloc p _, true) => [p]
                     | _ => []
                     end) tr.

Definition released (tr : list (Host.call * bool)) : list Host.buffer :=
  flat_map (fun e => match e with
                     | (Host.cudaFree p, true) => [p]
                     | _ => []
                     end) tr.

(** *** The operations of the stream *)

(** The copies and the launch are served by the device's default stream
    in the order the host issues them: an operation begins when those
    issued before it have completed. *)
Inductive stream_op : Type :=
  | Upload (p : Host.buffer)
  | Dispatch
  | Download (p : Host.buffer).

Definition stream_op_of (c : Host.call) : option stream_op :=
  match c with
  | Host.cudaMemcpy p _ Host.cudaMemcpyHostToDevice
  | Host.cudaMemcpyAsync p _ Host.cudaMemcpyHostToDevice => Some (Upload p)
  | Host.cudaMemcpy p _ Host.cudaMemcpyDeviceToHost
  | Host.cudaMemcpyAsync p _ Host.cudaMemcpyDeviceToHost => Some (Download p)
  | Host.kernel_launch _ _ => Some Dispatch
  | _ => None
  end.

(** The stream operations of a trace that were accepted by the runtime. *)
Definition stream_ops (tr : list (Host.call * bool)) : list stream_op :=
  flat_map (fun e => match stream_op_of (fst e), snd e with
                     | Some op, true => [op]
                     | _, _ => []
                     end) tr.

(** The ordering contract, checked along the stream: no upload follows
    the dispatch, the dispatch follows the uploads of both inputs, and a
    download follows the dispatch.  [uploaded] lists the inputs uploaded
    so far, [dispatched] tells whether the kernel has been launched. *)
Fixpoint ordered (uploaded : list Host.buffer) (dispatched : bool)
    (ops : list stream_op) : bool :=
  match ops with
  | [] => true
  | Upload p :: rest => negb dispatched && ordered (p :: uploaded) dispatched rest
  | Dispatch :: rest =>
      negb dispatched
      && existsb (Host.buffer_eqb Host.dev_a) uploaded
      && existsb (Host.buffer_eqb Host.dev_b) uploaded
      && ordered uploaded true rest
  | Download _ :: rest => dispatched && ordered uploaded dispatched rest
  end.

(** *** Byte sizes *)

Definition sizeof_elem (p : program) : Z :=
  match p with
  | VectorSum P | MatrixAdd P | MatrixAddMain P _ => Real.sizeof P
  | MatrixMul | Addvec => 4
  end.

(** The number of elements of the array behind a device buffer. *)
Definition elements (p : program) (ints : list Z) (buf : Host.buffer) : Z :=
  match p with
  | VectorSum _ => Host.unsigned_arg ints 0
  | MatrixAdd _ | MatrixAddMain _ _ =>
      Host.unsigned_arg ints 0 * Host.unsigned_arg ints 1
  | MatrixMul =>
      match buf with
      | Host.dev_a => Host.unsigned_arg ints 0 * Host.unsigned_arg ints 1
      | Host.dev_b => Host.unsigned_arg ints 2 * Host.unsigned_arg ints 3
      | Host.dev_c => Host.unsigned_arg ints 1 * Host.unsigned_arg ints 2
      end
  | Addvec => AddvecThreads.N
  end.

(** The host array that goes with a device buffer; [expected] has the
    size of the result. *)
Definition buffer_of (h : Host.hostptr) : Host.buffer :=
  match h with
  | Host.host_a => Host.dev_a
  | Host.host_b => Host.dev_b
  | Host.host_c | Host.host_expected => Host.dev_c
  end.

(** The byte size a call allocates or transfers, with the buffer it is
    for. *)
Definition sized (c : Host.call) : option (Host.buffer * Z) :=
  match c with
  | Host.cudaMalloc p size | Host.cudaMemcpy p size _
  | Host.cudaMemcpyAsync p size _ => Some (p, size)
  | Host.cudaMallocHost h size | Host.malloc h size => Some (buffer_of h, size)
  | _ => None
  end.

Definition size_wrapped (p : program) (ints : list Z) (e : Host.call * bool)
    : Prop :=
  match sized (fst e) with
  | Some (buf, size) => size = (elements p ints buf * sizeof_elem p) mod 2 ^ 32
  | None => True
  end.

(** Memory holding the same value everywhere. *)
Definition constant_memory {T : Type} (v : T) : memory T :=
  mk_memory T (fun _ => v) (fun _ => v) (fun _ _ => v) (fun _ _ => v).

Definition all_succeed : nat -> bool := fun _ => true.

(** Every call succeeds but the [n]-th. *)
Definition fails_at (n : nat) : nat -> bool := fun i => negb (Nat.eqb i n).

(** *** Geometries without wrap-around *)

(** The geometry of a dispatch has the shape its kernel expects (one
    dimension for the vector kernels, two for the matrix kernels) and
    neither a thread coordinate nor an output offset leaves the
    [unsigned int] range. *)
Definition fits (d : dispatch) : Prop :=
  dim_z (grid_of d) = 1 /\ dim_z (block_of d) = 1 /\
  dim_x (grid_of d) * dim_x (block_of d) <= 2 ^ 32 /\
  match d with
  | LaunchVectorAdd _ _ _ _ _ _ | LaunchAddThreads _ _ =>
      dim_y (grid_of d) = 1 /\ dim_y (block_of d) = 1
  | LaunchMatrixAdd _ _ _ _ _ _ _ | LaunchAdd _ _ _ _ _ _ _
  | LaunchMatrixMul _ _ _ _ _ _ _ =>
      dim_y (grid_of d) * dim_y (block_of d) <= 2 ^ 32
      /\ output_elements d <= 2 ^ 32
  end.

(** *** The discipline of the device buffers *)

Definition live_in (p : Host.buffer) (live : list Host.buffer) : bool :=
  existsb (Host.buffer_eqb p) live.

(** A trace respects the discipline of the device buffers when no buffer
    is allocated twice, a copy names a buffer that is allocated, a launch
    finds the three buffers allocated, and only an allocated buffer is
    freed.  [live] lists the buffers allocated so far and not freed. *)
Fixpoint lifecycle (live : list Host.buffer) (tr : list (Host.call * bool))
    : bool :=
  match tr with
  | [] => true
  | (c, ok) :: rest =>
      match c with
      | Host.cudaMalloc p _ =>
          negb (live_in p live)
          && lifecycle (if ok then p :: live else live) rest
      | Host.cudaMemcpy p _ _ | Host.cudaMemcpyAsync p _ _ =>
          live_in p live && lifecycle live rest
      | Host.kernel_launch _ _ =>
          live_in Host.dev_a live && live_in Host.dev_b live
          && live_in Host.dev_c live && lifecycle live rest
      | Host.cudaFree p =>
          live_in p live
          && lifecycle
               (if ok then filter (fun q => negb (Host.buffer_eqb p q)) live
                else live) rest
      | _ => lifecycle live rest
      end
  end.

(** *** The discipline of the host arrays *)

(** How a host array was allocated: [malloc] or [cudaMallocHost]. *)
Inductive allocator : Type := by_malloc | by_cudaMallocHost.

Definition hostptr_eqb (p q : Host.hostptr) : bool :=
  match p, q with
  | Host.host_a, Host.host_a | Host.host_b, Host.host_b
  | Host.host_c, Host.host_c | Host.host_expected, Host.host_expected => true
  | _, _ => false
  end.

Definition allocator_eqb (u v : allocator) : bool :=
  match u, v with
  | by_malloc, by_malloc | by_cudaMallocHost, by_cudaMallocHost => true
  | _, _ => false
  end.

Definition held_by (p : Host.hostptr) (how : allocator)
    (held : list (Host.hostptr * allocator)) : bool :=
  existsb (fun e => hostptr_eqb p (fst e) && allocator_eqb how (snd e)) held.

Definition held_at_all (p : Host.hostptr)
    (held : list (Host.hostptr * allocator)) : bool :=
  existsb (fun e => hostptr_eqb p (fst e)) held.

Definition let_go (p : Host.hostptr) (held : list (Host.hostptr * allocator))
    : list (Host.hostptr * allocator) :=
  filter (fun e => negb (hostptr_eqb p (fst e))) held.

(** Following the host arrays along a trace: [Some held] gives the arrays
    still allocated at the end; [None] tells that an array was allocated
    twice, or freed while not allocated, or freed by the function that
    does not go with its allocation ([free] for [malloc], [cudaFreeHost]
    for [cudaMallocHost]). *)
Fixpoint host_track (held : list (Host.hostptr * allocator))
    (tr : list (Host.call * bool)) : option (list (Host.hostptr * allocator)) :=
  match tr with
  | [] => Some held
  | (c, ok) :: rest =>
      match c with
      | Host.malloc p _ =>
          if held_at_all p held then None
          else host_track (if ok then (p, by_malloc) :: held else held) rest
      | Host.cudaMallocHost p _ =>
          if held_at_all p held then None
          else host_track (if ok then (p, by_cudaMallocHost) :: held else held) rest
      | Host.free p =>
          if held_by p by_malloc held then host_track (let_go p held) rest
          else None
      | Host.cudaFreeHost p =>
          if held_by p by_cudaMallocHost held
          then host_track (if ok then let_go p held else held) rest
          else None
      | _ => host_track held rest
      end
  end.

(** *** random_ints of addvec_threads.cu *)

(** The loop [for(i = 0; i<n; i++) p[i] = rand();] entered with counter
    [i]; [rand k] is what the [k]-th call of [rand()] of the process
    returns, [drawn] counts the calls made so far. *)
Fixpoint random_ints_loop (rand : nat -> Z) (n : Z) (fuel : nat) (i : Z)
    (p : Z -> Z) (drawn : nat) : (Z -> Z) * nat :=
  match fuel with
  | O => (p, drawn)
  | S fuel' =>
      if i <? n then
        random_ints_loop rand n fuel' (int32 (i + 1))
          (fun j => if j =? i then rand drawn else p j) (S drawn)
      else (p, drawn)
  end.

(** [void random_ints(int *p, int n)]: the array after the call and the
    number of calls of [rand()] made so far. *)
Definition random_ints (rand : nat -> Z) (p : Z -> Z) (n : Z) (drawn : nat)
    : (Z -> Z) * nat :=
  random_ints_loop rand n (Z.to_nat n) 0 p drawn.

(** *** Calls whose result is checked *)

(** The calls a program wraps in [HANDLE_ERROR] or [HANDLE_NULL].  The
    result of a kernel launch is never looked at, and [free] and the
    output functions return nothing the programs use. *)
Definition checked (c : Host.call) : bool :=
  match c with
  | Host.cudaGetDeviceProperties | Host.cudaMalloc _ _
  | Host.cudaMallocHost _ _ | Host.malloc _ _ | Host.cudaMemcpy _ _ _
  | Host.cudaMemcpyAsync _ _ _ | Host.cudaFree _ | Host.cudaFreeHost _ => true
  | Host.kernel_launch _ _ | Host.free _ | Host.fprintf_stderr _
  | Host.printf _ => false
  end.

(** A call that writes to stdout or stderr. *)
Definition output (c : Host.call) : bool :=
  match c with
  | Host.fprintf_stderr _ | Host.printf _ => true
  | _ => false
  end.

(** Nothing but output follows a checked call that failed: no CUDA call,
    no allocation, no launch, no free. *)
Fixpoint failures_final (tr : list (Host.call * bool)) : bool :=
  match tr with
  | [] => true
  | (c, ok) :: rest =>
      if checked c && negb ok then forallb (fun e => output (fst e)) rest
      else failures_final rest
  end.

(** Every checked call of the trace succeeded. *)
Definition checked_succeeded (tr : list (Host.call * bool)) : bool :=
  forallb (fun e => implb (checked (fst e)) (snd e)) tr.

(** * Properties *)

(** ** Machine arithmetic *)

Section MachineFacts.

Lemma uint32_range v : 0 <= uint32 v < 2 ^ 32.
Proof. unfold uint32. apply Z.mod_pos_bound. lia. Qed.

Lemma uint32_small v : 0 <= v < 2 ^ 32 -> uint32 v = v.
Proof. intros H. unfold uint32. now apply Z.mod_small. Qed.

Lemma uint32_le v : 0 <= v -> uint32 v <= v.
Proof. intros H. unfold uint32. apply Z.mod_le; lia. Qed.

Lemma uint32_add_l u v : uint32 (uint32 u + v) = uint32 (u + v).
Proof. unfold uint32. now rewrite Zplus_mod_idemp_l. Qed.

Lemma uint32_mul_l u v : uint32 (uint32 u * v) = uint32 (u * v).
Proof. unfold uint32. now rewrite Zmult_mod_idemp_l. Qed.

Lemma int32_range v : - 2 ^ 31 <= int32 v < 2 ^ 31.
Proof.
  unfold int32. pose proof (Z.mod_pos_bound (v + 2 ^ 31) (2 ^ 32)). lia.
Qed.

Lemma int32_small v : - 2 ^ 31 <= v < 2 ^ 31 -> int32 v = v.
Proof. intros H. unfold int32. rewrite Z.mod_small; lia. Qed.

Lemma int32_add_r u v : int32 (u + int32 v) = int32 (u + v).
Proof.
  unfold int32.
  replace (u + ((v + 2 ^ 31) mod 2 ^ 32 - 2 ^ 31) + 2 ^ 31)
    with (u + (v + 2 ^ 31) mod 2 ^ 32) by lia.
  rewrite Zplus_mod_idemp_r. f_equal. f_equal. lia.
Qed.

Lemma int32_add_l u v : int32 (int32 u + v) = int32 (u + v).
Proof. rewrite (Z.add_comm (int32 u)), int32_add_r. f_equal. lia. Qed.

Lemma geb_false u v : u < v -> (u >=? v) = false.
Proof. intros H. rewrite Z.geb_leb. apply Z.leb_gt. lia. Qed.

Lemma geb_true u v : v <= u -> (u >=? v) = true.
Proof. intros H. rewrite Z.geb_leb. apply Z.leb_le. lia. Qed.

End MachineFacts.

Lemma coord_x_nonneg k t : 0 <= coord_x k t.
Proof. apply uint32_range. Qed.

Lemma coord_y_nonneg k t : 0 <= coord_y k t.
Proof. apply uint32_range. Qed.

(** ** The matrix-multiply kernel *)

Section MatrixMulKernel.

Import MatrixMulNxmInt.

Variables (a b : Z -> Z) (dimX1 dimX2 iX iY : Z).

Let term (k : Z) : Z := a (iY * dimX1 + k) * b (k * dimX2 + iX).

(** Entered with [n] iterations left before [k] reaches [dimX1], the loop
    adds the remaining [n] terms to the accumulator, in [int] arithmetic,
    as long as no index leaves the [unsigned int] range. *)
Lemma matrixMul_loop_sum n : forall k val,
  0 <= k -> k + Z.of_nat n = dimX1 -> dimX1 < 2 ^ 32 ->
  (forall j, k <= j < dimX1 ->
     0 <= iY * dimX1 + j < 2 ^ 32 /\ 0 <= j * dimX2 + iX < 2 ^ 32) ->
  is_int32 val ->
  matrixMul_loop a b dimX1 dimX2 iX iY n k val = int32 (val + zsum term k n).
Proof.
  induction n as [|n IH]; intros k val Hk Hn Hlt Hidx Hval.
  - cbn [matrixMul_loop zsum]. rewrite Z.add_0_r. symmetry. now apply int32_small.
  - cbn [matrixMul_loop zsum].
    rewrite (proj2 (Z.ltb_lt k dimX1)) by lia.
    destruct (Hidx k ltac:(lia)) as [Ha Hb].
    rewrite !uint32_add_l, (uint32_small (iY * dimX1 + k)),
            (uint32_small (k * dimX2 + iX)), (uint32_small (k + 1)) by lia.
    rewrite IH.
    + rewrite int32_add_r, int32_add_l. unfold term. f_equal. lia.
    + lia.
    + lia.
    + lia.
    + intros j Hj. apply Hidx. lia.
    + apply int32_range.
Qed.

(** Once [k] has reached [dimX1] the loop is over, whatever fuel is left. *)
Lemma matrixMul_loop_done fuel k val :
  dimX1 <= k -> matrixMul_loop a b dimX1 dimX2 iX iY fuel k val = val.
Proof.
  intros Hk. destruct fuel; cbn [matrixMul_loop]; [reflexivity|].
  now rewrite (proj2 (Z.ltb_ge k dimX1)) by lia.
Qed.

End MatrixMulKernel.

Lemma store_other {T : Type} (c : Z -> T) pos val i :
  i <> pos -> store c (Some (pos, val)) i = c i.
Proof. intros H. cbn. destruct (i =? pos) eqn:E; [lia | reflexivity]. Qed.

Lemma store_same {T : Type} (c : Z -> T) pos val :
  store c (Some (pos, val)) pos = val.
Proof. cbn. now rewrite Z.eqb_refl. Qed.

(** The store of a thread of [matrixMul] whose coordinate is inside the
    output. *)
Lemma matrixMul_stores
    (a b : Z -> Z) (dimX1 dimY1 dimX2 : Z) (blockDim : dim3) (t : thread) :
  is_uint32 dimX1 -> is_uint32 dimY1 -> is_uint32 dimX2 ->
  dimX1 * dimY1 <= 2 ^ 32 -> dimX2 * dimX1 <= 2 ^ 32 -> dimY1 * dimX2 <= 2 ^ 32 ->
  coord_x blockDim t < dimX2 -> coord_y blockDim t < dimY1 ->
  MatrixMulNxmInt.matrixMul a b dimX1 dimY1 dimX2 blockDim t
  = Some (coord_y blockDim t * dimX2 + coord_x blockDim t,
          int32 (dot a b dimX1 dimX2 (coord_x blockDim t) (coord_y blockDim t))).
Proof.
  intros HX1 HY1 HX2 HA HB HC HiX HiY.
  pose proof (coord_x_nonneg blockDim t) as HiX0.
  pose proof (coord_y_nonneg blockDim t) as HiY0.
  unfold is_uint32 in *.
  unfold MatrixMulNxmInt.matrixMul.
  set (iX := coord_x blockDim t) in *. set (iY := coord_y blockDim t) in *.
  rewrite (geb_false iX dimX2), (geb_false iY dimY1) by lia.
  cbn [orb].
  rewrite uint32_add_l, (uint32_small (iY * dimX2 + iX)) by nia.
  rewrite matrixMul_loop_sum.
  - reflexivity.
  - lia.
  - rewrite Z2Nat.id; lia.
  - lia.
  - intros j Hj. split; nia.
  - unfold is_int32. lia.
Qed.

(** A thread of [matrixMul] that stores has its coordinate inside the
    output. *)
Lemma matrixMul_stores_inv
    (a b : Z -> Z) (dimX1 dimY1 dimX2 : Z) (blockDim : dim3) (t : thread) w :
  MatrixMulNxmInt.matrixMul a b dimX1 dimY1 dimX2 blockDim t = Some w ->
  coord_x blockDim t < dimX2 /\ coord_y blockDim t < dimY1.
Proof.
  unfold MatrixMulNxmInt.matrixMul.
  destruct (coord_x blockDim t >=? dimX2) eqn:EX; [discriminate|].
  destruct (coord_y blockDim t >=? dimY1) eqn:EY; [discriminate|].
  intros _. rewrite Z.geb_leb in EX, EY. apply Z.leb_gt in EX, EY. lia.
Qed.

(** C1. In a launch of [matrixMul] on A (dimY1 rows of dimX1 ints) and B
    (dimY2 = dimX1 rows of dimX2 ints), whose elements and those of the
    result are indexed by [unsigned int] offsets, a thread whose
    coordinate (iX, iY) has iX < dimX2 and iY < dimY1 performs exactly one
    store: the [int] sum over k < dimX1 of A[iY*dimX1+k] * B[k*dimX2+iX],
    to result[iY*dimX2+iX].  No other element of the result changes. *)
Theorem C1_matrixMul_unit
    (a b : Z -> Z) (dimX1 dimY1 dimX2 dimY2 : Z) (blockDim : dim3) (t : thread) :
  is_uint32 dimX1 -> is_uint32 dimY1 -> is_uint32 dimX2 ->
  dimY2 = dimX1 ->
  dimX1 * dimY1 <= 2 ^ 32 -> dimX2 * dimY2 <= 2 ^ 32 -> dimY1 * dimX2 <= 2 ^ 32 ->
  coord_x blockDim t < dimX2 -> coord_y blockDim t < dimY1 ->
  let iX := coord_x blockDim t in
  let iY := coord_y blockDim t in
  let pos := iY * dimX2 + iX in
  let sum := dot a b dimX1 dimX2 iX iY in
  MatrixMulNxmInt.matrixMul a b dimX1 dimY1 dimX2 blockDim t
    = Some (pos, int32 sum)
  /\ (is_int32 sum -> int32 sum = sum)
  /\ forall c : Z -> Z,
       let c' := store c (MatrixMulNxmInt.matrixMul a b dimX1 dimY1 dimX2 blockDim t) in
       c' pos = int32 sum /\ forall i, i <> pos -> c' i = c i.
Proof.
  intros HX1 HY1 HX2 HY2 HA HB HC HiX HiY iX iY pos sum. subst dimY2.
  pose proof (matrixMul_stores a b dimX1 dimY1 dimX2 blockDim t
                HX1 HY1 HX2 HA HB HC HiX HiY) as Hk.
  fold iX iY in Hk. fold pos sum in Hk.
  split; [exact Hk|]. split.
  - intros Hs. now apply int32_small.
  - intros c. cbv zeta. rewrite Hk. split.
    + apply store_same.
    + intros i Hi. now apply store_other.
Qed.

(** The unit with block (0,0) and thread (1,1) of the 2x2 product of the
    identity and [[5,6],[7,8]] stores 8 at offset 3. *)
Lemma C1_matrixMul_unit_witness :
  MatrixMulNxmInt.matrixMul
    (fun i => nth (Z.to_nat i) [1; 0; 0; 1] 0)
    (fun i => nth (Z.to_nat i) [5; 6; 7; 8] 0)
    2 2 2 (dim3_2 2 2) (mk_thread (mk_dim3 0 0 0) (mk_dim3 1 1 0))
  = Some (3, 8).
Proof.
  pose proof (C1_matrixMul_unit
    (fun i => nth (Z.to_nat i) [1; 0; 0; 1] 0)
    (fun i => nth (Z.to_nat i) [5; 6; 7; 8] 0)
    2 2 2 2 (dim3_2 2 2) (mk_thread (mk_dim3 0 0 0) (mk_dim3 1 1 0))) as H.
  apply H; unfold is_uint32; vm_compute; intuition congruence.
Defined.

(** ** Boundary safety of the kernels *)

Lemma matrix_pos_in_extent iX iY dimX dimY :
  0 <= iX < dimX -> 0 <= iY < dimY ->
  0 <= uint32 (uint32 (iY * dimX) + iX) < dimX * dimY.
Proof.
  intros HX HY. rewrite uint32_add_l.
  pose proof (uint32_range (iY * dimX + iX)).
  pose proof (uint32_le (iY * dimX + iX) ltac:(nia)).
  nia.
Qed.

(** C2. In every launch the sources make (of [vectorAdd], [matrixAdd],
    [add] of either file, [matrixMul]) a thread whose computed coordinate
    falls outside the problem extent performs no store, and every store
    that is performed goes to an offset below the number of output
    elements. *)
Theorem C2_no_write_outside_extent (d : dispatch) (t : thread) :
  in_launch (grid_of d) (block_of d) t ->
  (outside_extent d t -> stored_at d t = None) /\
  (forall pos, stored_at d t = Some pos -> 0 <= pos < output_elements d).
Proof.
  intros Hin.
  pose proof (coord_x_nonneg (block_of d) t) as Hx.
  pose proof (coord_y_nonneg (block_of d) t) as Hy.
  destruct d as [P a b dim g k | P a b dimX dimY g k | P a b dimX dimY g k
                | a b dimX1 dimY1 dimX2 g k | a b];
    cbn [stored_at outside_extent output_elements block_of] in *.
  - unfold VectorSumFloatOpt.vectorAdd. split.
    + intros Hout. now rewrite geb_true.
    + intros pos. destruct (coord_x k t >=? dim) eqn:E; cbn; [discriminate|].
      intros [= <-]. rewrite Z.geb_leb in E. apply Z.leb_gt in E. lia.
  - unfold MatrixAddNxmFloat.matrixAdd. split.
    + intros [Hout | Hout]; rewrite (geb_true _ _ Hout), ?orb_true_r; reflexivity.
    + intros pos.
      destruct (coord_x k t >=? dimX) eqn:EX; cbn; [discriminate|].
      destruct (coord_y k t >=? dimY) eqn:EY; cbn; [discriminate|].
      intros [= <-]. rewrite Z.geb_leb in EX, EY. apply Z.leb_gt in EX, EY.
      apply matrix_pos_in_extent; lia.
  - unfold MatrixAddNxmFloatMain.add. split.
    + intros [Hout | Hout].
      * replace (coord_x k t <? dimX) with false by (symmetry; apply Z.ltb_ge; lia).
        reflexivity.
      * replace (coord_y k t <? dimY) with false by (symmetry; apply Z.ltb_ge; lia).
        now rewrite andb_false_r.
    + intros pos.
      destruct (coord_x k t <? dimX) eqn:EX; cbn; [|discriminate].
      destruct (coord_y k t <? dimY) eqn:EY; cbn; [|discriminate].
      intros [= <-]. apply Z.ltb_lt in EX, EY.
      apply matrix_pos_in_extent; lia.
  - unfold MatrixMulNxmInt.matrixMul. split.
    + intros [Hout | Hout]; rewrite (geb_true _ _ Hout), ?orb_true_r; reflexivity.
    + intros pos.
      destruct (coord_x k t >=? dimX2) eqn:EX; cbn; [discriminate|].
      destruct (coord_y k t >=? dimY1) eqn:EY; cbn; [discriminate|].
      intros [= <-]. rewrite Z.geb_leb in EX, EY. apply Z.leb_gt in EX, EY.
      rewrite (Z.mul_comm dimY1 dimX2).
      apply matrix_pos_in_extent; lia.
  - destruct Hin as (_ & _ & _ & Htx & _). cbn in Htx.
    unfold AddvecThreads.N in *. split.
    + intros Hout. lia.
    + intros pos [= <-]. lia.
Qed.

(** [vectorAdd<<< 2, 4 >>>] on 5 elements: thread 3 of block 1 computes
    coordinate 7 and stores nothing. *)
Lemma C2_no_write_outside_extent_witness :
  stored_at
    (LaunchVectorAdd Real.Single (fun _ => S754_zero false) (fun _ => S754_zero false)
       5 (dim3_1 2) (dim3_1 4))
    (mk_thread (mk_dim3 1 0 0) (mk_dim3 3 0 0)) = None.
Proof.
  apply (C2_no_write_outside_extent
    (LaunchVectorAdd Real.Single (fun _ => S754_zero false) (fun _ => S754_zero false)
       5 (dim3_1 2) (dim3_1 4))
    (mk_thread (mk_dim3 1 0 0) (mk_dim3 3 0 0))).
  - unfold in_launch. cbn. lia.
  - cbn. vm_compute. discriminate.
Defined.

(** [add] of addvec_threads.cu stores at [threadIdx.x] whatever it is: the
    kernel relies on being launched with exactly [N] threads. *)
Lemma add_unguarded a b t :
  AddvecThreads.add a b t
  = Some (dim_x (threadIdx t),
          int32 (a (dim_x (threadIdx t)) + b (dim_x (threadIdx t)))).
Proof. reflexivity. Qed.

(** ** The grid sizes *)

Section Planner.

Lemma ceil_div_spec E G :
  1 <= G -> ceil_div E G * G >= E /\ (ceil_div E G - 1) * G < E.
Proof.
  intros HG. unfold ceil_div.
  pose proof (Z.div_mod (E + G - 1) G ltac:(lia)) as Hd.
  pose proof (Z.mod_pos_bound (E + G - 1) G ltac:(lia)) as Hm.
  nia.
Qed.

Lemma ceil_div_unique E G g :
  1 <= G -> g * G >= E -> (g - 1) * G < E -> g = ceil_div E G.
Proof.
  intros HG H1 H2. destruct (ceil_div_spec E G HG) as [H3 H4]. nia.
Qed.

(** Dividing first and adjusting afterwards never leaves the
    [unsigned int] range: the grid size of the matrix programs is the
    ceiling for every extent and block size. *)
Lemma grid_size_of_ceil E G :
  is_uint32 E -> is_uint32 G -> 1 <= G ->
  Host.grid_size_of E G = ceil_div E G.
Proof.
  unfold is_uint32. intros HE HGr HG. unfold Host.grid_size_of.
  pose proof (Z.div_mod E G ltac:(lia)) as Hd.
  pose proof (Z.mod_pos_bound E G ltac:(lia)) as Hm.
  assert (Hq : 0 <= E / G <= E) by (split; [apply Z.div_pos; lia | nia]).
  rewrite (uint32_small (E / G)) by lia.
  rewrite (uint32_small (E / G * G)) by nia.
  destruct (E / G * G <? E) eqn:Hlt.
  - apply Z.ltb_lt in Hlt.
    rewrite uint32_small by nia.
    apply ceil_div_unique; nia.
  - apply Z.ltb_ge in Hlt. apply ceil_div_unique; nia.
Qed.

(** Adding first is the ceiling as long as the sum does not wrap. *)
Lemma gridSize_ceil E G :
  1 <= E -> 1 <= G -> E + G - 1 < 2 ^ 32 ->
  VectorSumFloatOpt.gridSize E G = ceil_div E G.
Proof.
  intros HE HG Hs. unfold VectorSumFloatOpt.gridSize, ceil_div.
  rewrite (uint32_small (E + G - 1)) by lia.
  apply uint32_small.
  pose proof (Z.div_mod (E + G - 1) G ltac:(lia)) as Hd.
  pose proof (Z.mod_pos_bound (E + G - 1) G ltac:(lia)) as Hm.
  split; [apply Z.div_pos; lia | nia].
Qed.

Lemma IS_POWER_OF_2_sound v :
  Host.IS_POWER_OF_2 v = true -> exists k, 0 <= k /\ v = 2 ^ k.
Proof.
  unfold Host.IS_POWER_OF_2. intros H. apply andb_prop in H as [Hpos Hland].
  apply Z.ltb_lt in Hpos. apply Z.eqb_eq in Hland.
  exists (Z.log2 v). split; [apply Z.log2_nonneg|].
  destruct (Z.log2_spec v Hpos) as [Hlo Hhi].
  destruct (Z.eq_dec v (2 ^ Z.log2 v)) as [Heq | Hne]; [exact Heq|exfalso].
  assert (Hlog : Z.log2 (v - 1) = Z.log2 v).
  { apply Z.log2_unique; [apply Z.log2_nonneg | lia]. }
  assert (Hpos' : 0 < v - 1).
  { pose proof (Z.pow_pos_nonneg 2 (Z.log2 v) ltac:(lia) (Z.log2_nonneg v)). lia. }
  pose proof (Z.bit_log2 v Hpos) as Hb1.
  pose proof (Z.bit_log2 (v - 1) Hpos') as Hb2. rewrite Hlog in Hb2.
  pose proof (Z.land_spec v (v - 1) (Z.log2 v)) as Hs.
  rewrite Hland, Hb1, Hb2, Z.bits_0 in Hs. discriminate.
Qed.

Lemma IS_POWER_OF_2_complete k : 0 <= k -> Host.IS_POWER_OF_2 (2 ^ k) = true.
Proof.
  intros Hk. unfold Host.IS_POWER_OF_2.
  pose proof (Z.pow_pos_nonneg 2 k ltac:(lia) Hk) as Hpos.
  apply andb_true_intro. split; [apply Z.ltb_lt; lia|].
  apply Z.eqb_eq. apply Z.bits_inj'. intros n Hn.
  rewrite Z.land_spec, Z.bits_0, Z.pow2_bits_eqb by lia.
  destruct (Z.eqb_spec k n) as [-> | Hne]; [|reflexivity].
  cbn [andb]. replace (2 ^ n - 1) with (Z.ones n) by (rewrite Z.ones_equiv; lia).
  apply Z.ones_spec_high. lia.
Qed.

(** A power of two below 2^32 divides 2^32. *)
Lemma power_of_2_divides v :
  Host.IS_POWER_OF_2 v = true -> v < 2 ^ 32 ->
  1 <= v /\ exists q, 2 ^ 32 = q * v.
Proof.
  intros Hp Hlt. destruct (IS_POWER_OF_2_sound v Hp) as (k & Hk & ->).
  pose proof (Z.pow_pos_nonneg 2 k ltac:(lia) Hk) as Hpos.
  split; [lia|].
  assert (k < 32) by (apply (Z.pow_lt_mono_r_iff 2); lia).
  exists (2 ^ (32 - k)). rewrite <- Z.pow_add_r by lia. f_equal. lia.
Qed.

(** With a power-of-two block size the launched threads along one axis
    number at most 2^32: no thread coordinate wraps. *)
Lemma grid_no_wrap E G :
  is_uint32 E -> is_uint32 G -> Host.IS_POWER_OF_2 G = true ->
  Host.grid_size_of E G * G <= 2 ^ 32.
Proof.
  unfold is_uint32. intros HE HGr Hp.
  destruct (power_of_2_divides G Hp ltac:(lia)) as (HG & q & Hq).
  rewrite grid_size_of_ceil by (unfold is_uint32; lia).
  destruct (ceil_div_spec E G HG) as [H1 H2].
  assert (ceil_div E G - 1 < q) by nia.
  nia.
Qed.

End Planner.

(** ** Coverage of the matrix-multiply output *)

Section Coverage.

(** Along one axis, with [g * s <= 2^32] threads, each coordinate below
    [g * s] is the coordinate of exactly one (block, thread) pair. *)
Lemma axis_decompose g s i :
  1 <= s -> g * s <= 2 ^ 32 -> 0 <= i < g * s ->
  0 <= i / s < g /\ 0 <= i mod s < s /\ uint32 (i / s * s + i mod s) = i.
Proof.
  intros Hs Hg Hi.
  pose proof (Z.div_mod i s ltac:(lia)) as Hd.
  pose proof (Z.mod_pos_bound i s ltac:(lia)) as Hm.
  assert (0 <= i / s) by (apply Z.div_pos; lia).
  repeat split; try lia; try nia.
  rewrite uint32_small; nia.
Qed.

Lemma axis_unique g s bi ti i :
  1 <= s -> g * s <= 2 ^ 32 ->
  0 <= bi < g -> 0 <= ti < s -> uint32 (bi * s + ti) = i ->
  bi = i / s /\ ti = i mod s.
Proof.
  intros Hs Hg Hb Ht Hi.
  rewrite uint32_small in Hi by nia. subst i.
  rewrite (Z.add_comm (bi * s) ti).
  split.
  - rewrite Z.div_add by lia. rewrite Z.div_small by lia. lia.
  - rewrite Z.mod_add by lia. now rewrite Z.mod_small by lia.
Qed.

Lemma max_ge_l u v : u <= Machine.max u v.
Proof. unfold Machine.max. destruct (u <? v) eqn:E; [apply Z.ltb_lt in E|]; lia. Qed.

Lemma max_ge_r u v : v <= Machine.max u v.
Proof. unfold Machine.max. destruct (u <? v) eqn:E; [|apply Z.ltb_ge in E]; lia. Qed.

Lemma max_uint32 u v : is_uint32 u -> is_uint32 v -> is_uint32 (Machine.max u v).
Proof. unfold Machine.max. now destruct (u <? v). Qed.

End Coverage.

Lemma thread_at_covers gx gy blockSize iX iY :
  1 <= blockSize -> gx * blockSize <= 2 ^ 32 -> gy * blockSize <= 2 ^ 32 ->
  0 <= iX < gx * blockSize -> 0 <= iY < gy * blockSize ->
  in_launch (dim3_2 gx gy) (dim3_2 blockSize blockSize) (thread_at blockSize iX iY)
  /\ coord_x (dim3_2 blockSize blockSize) (thread_at blockSize iX iY) = iX
  /\ coord_y (dim3_2 blockSize blockSize) (thread_at blockSize iX iY) = iY.
Proof.
  intros Hs HwX HwY HiX HiY.
  destruct (axis_decompose gx blockSize iX Hs HwX HiX) as (Hbx & Htx & Hcx).
  destruct (axis_decompose gy blockSize iY Hs HwY HiY) as (Hby & Hty & Hcy).
  split; [|split; [exact Hcx | exact Hcy]].
  unfold in_launch, thread_at. cbn. lia.
Qed.

Lemma thread_at_unique gx gy blockSize iX iY t :
  1 <= blockSize -> gx * blockSize <= 2 ^ 32 -> gy * blockSize <= 2 ^ 32 ->
  in_launch (dim3_2 gx gy) (dim3_2 blockSize blockSize) t ->
  coord_x (dim3_2 blockSize blockSize) t = iX ->
  coord_y (dim3_2 blockSize blockSize) t = iY ->
  t = thread_at blockSize iX iY.
Proof.
  intros Hs HwX HwY Hin Hx Hy.
  destruct t as [[bx by_ bz] [tx ty tz]].
  unfold in_launch in Hin. cbn in Hin.
  unfold coord_x, coord_y in Hx, Hy. cbn in Hx, Hy.
  destruct Hin as (Hbx & Hby & Hbz & Htx & Hty & Htz).
  destruct (axis_unique gx blockSize bx tx iX Hs HwX Hbx Htx Hx) as [-> ->].
  destruct (axis_unique gy blockSize by_ ty iY Hs HwY Hby Hty Hy) as [-> ->].
  unfold thread_at. f_equal; f_equal; lia.
Qed.

(** The grid of the matrix product covers the output and no thread
    coordinate wraps. *)
Lemma matrixMul_grid_bounds dimX1 dimY1 dimX2 dimY2 blockSize :
  is_uint32 dimX1 -> is_uint32 dimY1 -> is_uint32 dimX2 -> is_uint32 dimY2 ->
  is_uint32 blockSize -> Host.IS_POWER_OF_2 blockSize = true ->
  let gx := MatrixMulNxmInt.gridSizeX dimX1 dimX2 blockSize in
  let gy := MatrixMulNxmInt.gridSizeY dimY1 dimY2 blockSize in
  1 <= blockSize /\
  dimX2 <= gx * blockSize <= 2 ^ 32 /\
  dimY1 <= gy * blockSize <= 2 ^ 32.
Proof.
  intros HX1 HY1 HX2 HY2 Hbs Hp gx gy.
  destruct (power_of_2_divides blockSize Hp ltac:(apply Hbs)) as (Hs & _).
  pose proof (max_uint32 _ _ HX1 HX2) as HmX.
  pose proof (max_uint32 _ _ HY1 HY2) as HmY.
  pose proof (grid_no_wrap _ _ HmX Hbs Hp) as HwX.
  pose proof (grid_no_wrap _ _ HmY Hbs Hp) as HwY.
  fold (MatrixMulNxmInt.gridSizeX dimX1 dimX2 blockSize) in HwX.
  fold (MatrixMulNxmInt.gridSizeY dimY1 dimY2 blockSize) in HwY.
  fold gx in HwX. fold gy in HwY.
  assert (HcX : gx * blockSize >= Machine.max dimX1 dimX2).
  { unfold gx, MatrixMulNxmInt.gridSizeX.
    rewrite grid_size_of_ceil by (assumption || lia).
    now apply ceil_div_spec. }
  assert (HcY : gy * blockSize >= Machine.max dimY1 dimY2).
  { unfold gy, MatrixMulNxmInt.gridSizeY.
    rewrite grid_size_of_ceil by (assumption || lia).
    now apply ceil_div_spec. }
  pose proof (max_ge_r dimX1 dimX2) as HgX.
  pose proof (max_ge_l dimY1 dimY2) as HgY.
  lia.
Qed.

(** C9. In matrix_mul_nxm_int.cu the grid is sized from max(dimX1, dimX2)
    and max(dimY1, dimY2).  For dimensions and a block size that [main]
    accepts, the launch covers the output: gridSizeX * blockSize >= dimX2
    and gridSizeY * blockSize >= dimY1, and for every output element
    (iX < dimX2, iY < dimY1) exactly one thread of the launch has that
    coordinate; it is the one that stores to the element. *)
Theorem C9_matrixMul_grid_covers
    (a b : Z -> Z) (dimX1 dimY1 dimX2 dimY2 blockSize : Z) :
  is_uint32 dimX1 -> is_uint32 dimY1 -> is_uint32 dimX2 -> is_uint32 dimY2 ->
  is_uint32 blockSize ->
  1 <= dimX1 -> 1 <= dimY1 -> 1 <= dimX2 -> dimY2 = dimX1 ->
  Host.IS_POWER_OF_2 blockSize = true ->
  let gx := MatrixMulNxmInt.gridSizeX dimX1 dimX2 blockSize in
  let gy := MatrixMulNxmInt.gridSizeY dimY1 dimY2 blockSize in
  let gridDim := dim3_2 gx gy in
  let blockDim := dim3_2 blockSize blockSize in
  gx * blockSize >= dimX2 /\
  gy * blockSize >= dimY1 /\
  forall iX iY, 0 <= iX < dimX2 -> 0 <= iY < dimY1 ->
    exists t,
      in_launch gridDim blockDim t /\
      coord_x blockDim t = iX /\ coord_y blockDim t = iY /\
      (exists val,
         MatrixMulNxmInt.matrixMul a b dimX1 dimY1 dimX2 blockDim t
         = Some (uint32 (uint32 (iY * dimX2) + iX), val)) /\
      forall t', in_launch gridDim blockDim t' ->
        coord_x blockDim t' = iX -> coord_y blockDim t' = iY -> t' = t.
Proof.
  intros HX1 HY1 HX2 HY2 Hbs H1X1 H1Y1 H1X2 Heq Hp gx gy gridDim blockDim.
  destruct (matrixMul_grid_bounds dimX1 dimY1 dimX2 dimY2 blockSize
              HX1 HY1 HX2 HY2 Hbs Hp) as (Hs & HbX & HbY).
  fold gx in HbX. fold gy in HbY.
  split; [lia|]. split; [lia|].
  intros iX iY HiX HiY.
  destruct (thread_at_covers gx gy blockSize iX iY Hs
              ltac:(lia) ltac:(lia) ltac:(lia) ltac:(lia)) as (Hin & Hx & Hy).
  exists (thread_at blockSize iX iY).
  split; [exact Hin|]. split; [exact Hx|]. split; [exact Hy|]. split.
  - unfold MatrixMulNxmInt.matrixMul. fold blockDim in Hx, Hy. rewrite Hx, Hy.
    rewrite (geb_false iX dimX2), (geb_false iY dimY1) by lia. cbn [orb].
    eexists. reflexivity.
  - intros t' Hin' Hx' Hy'.
    apply (thread_at_unique gx gy); try assumption; lia.
Qed.

(** A (3 columns, 3 rows) times B (2 columns, 3 rows) with block size 2:
    the grid is 2x2 and covers the 2x3 output. *)
Lemma C9_matrixMul_grid_covers_witness :
  MatrixMulNxmInt.gridSizeX 3 2 2 * 2 >= 2 /\
  MatrixMulNxmInt.gridSizeY 3 3 2 * 2 >= 3.
Proof.
  pose proof (C9_matrixMul_grid_covers (fun _ => 0) (fun _ => 0) 3 3 2 3 2) as H.
  cbv zeta in H.
  assert (U : forall v, 0 <= v < 4 -> is_uint32 v) by (unfold is_uint32; lia).
  destruct H as (H1 & H2 & _);
    try (apply U; lia); try lia; reflexivity.
Defined.

(** ** What a launch leaves in memory *)

Section Launch.

Lemma In_zrange i n : forall lo,
  In i (zrange lo n) <-> lo <= i < lo + Z.of_nat n.
Proof.
  induction n as [|n IH]; intros lo; cbn [zrange In].
  - lia.
  - rewrite IH. lia.
Qed.

Lemma In_indices d extent :
  In d (indices extent) <->
  0 <= dim_x d < dim_x extent /\ 0 <= dim_y d < dim_y extent /\
  0 <= dim_z d < dim_z extent.
Proof.
  unfold indices. rewrite in_flat_map. split.
  - intros (vz & Hz & H). rewrite in_flat_map in H. destruct H as (vy & Hy & H).
    rewrite in_map_iff in H. destruct H as (vx & <- & Hx).
    rewrite In_zrange in Hx, Hy, Hz. cbn. lia.
  - intros (Hx & Hy & Hz). exists (dim_z d). split; [rewrite In_zrange; lia|].
    rewrite in_flat_map. exists (dim_y d). split; [rewrite In_zrange; lia|].
    rewrite in_map_iff. exists (dim_x d). split; [now destruct d|].
    rewrite In_zrange; lia.
Qed.

(** The list of threads a launch runs holds exactly the threads of the
    launch. *)
Lemma In_threads gridDim blockDim t :
  In t (threads gridDim blockDim) <-> in_launch gridDim blockDim t.
Proof.
  unfold threads, in_launch. rewrite in_flat_map. split.
  - intros (bi & Hb & H). rewrite in_map_iff in H. destruct H as (ti & <- & Ht).
    rewrite In_indices in Hb, Ht. cbn. lia.
  - intros H. exists (blockIdx t). split; [rewrite In_indices; lia|].
    rewrite in_map_iff. exists (threadIdx t). split; [now destruct t|].
    rewrite In_indices; lia.
Qed.

Variable T : Type.
Variable kernel : thread -> option (Z * T).

Let run_threads (l : list thread) (c : Z -> T) : Z -> T :=
  fold_left (fun m t => store m (kernel t)) l c.

(** An element no thread stores to keeps its value. *)
Lemma launch_untouched l pos : forall c,
  (forall t val, In t l -> kernel t <> Some (pos, val)) ->
  run_threads l c pos = c pos.
Proof.
  induction l as [|t0 l IH]; intros c Hno; cbn; [reflexivity|].
  unfold run_threads in IH. rewrite IH.
  - destruct (kernel t0) as [[q val]|] eqn:E; [|reflexivity].
    apply store_other. intros ->. apply (Hno t0 val); [now left | exact E].
  - intros t val Hin. apply Hno. now right.
Qed.

Lemma launch_keeps l pos val : forall c,
  (forall t val', In t l -> kernel t = Some (pos, val') -> val' = val) ->
  c pos = val -> run_threads l c pos = val.
Proof.
  induction l as [|t0 l IH]; intros c Hsame Hc; cbn; [exact Hc|].
  unfold run_threads in IH. apply IH.
  - intros t val' Hin. apply Hsame. now right.
  - destruct (kernel t0) as [[q val']|] eqn:E; [|exact Hc].
    destruct (Z.eq_dec pos q) as [<- | Hne].
    + rewrite store_same. apply (Hsame t0); [now left | exact E].
    + now rewrite store_other.
Qed.

(** An element that some thread stores [val] to, and to which no thread
    stores anything else, holds [val] after the launch. *)
Lemma launch_stored l pos val : forall c,
  (forall t val', In t l -> kernel t = Some (pos, val') -> val' = val) ->
  (exists t, In t l /\ kernel t = Some (pos, val)) ->
  run_threads l c pos = val.
Proof.
  induction l as [|t0 l IH]; intros c Hsame (t & Hin & Ht); [destruct Hin|].
  cbn. destruct Hin as [<- | Hin].
  - apply launch_keeps.
    + intros t val' Hin'. apply Hsame. now right.
    + rewrite Ht. apply store_same.
  - unfold run_threads in IH. apply IH.
    + intros t' val' Hin'. apply Hsame. now right.
    + now exists t.
Qed.

End Launch.

(** The launch that [main] of matrix_mul_nxm_int.cu makes leaves the
    product in the result: element (iX, iY) holds the [int] sum over k
    of A[iY*dimX1+k] * B[k*dimX2+iX], and elements past the output keep
    their value. *)
Theorem matrixMul_launch_product
    (a b c : Z -> Z) (dimX1 dimY1 dimX2 dimY2 blockSize : Z) :
  is_uint32 dimX1 -> is_uint32 dimY1 -> is_uint32 dimX2 -> is_uint32 dimY2 ->
  is_uint32 blockSize ->
  1 <= dimX1 -> 1 <= dimY1 -> 1 <= dimX2 -> dimY2 = dimX1 ->
  Host.IS_POWER_OF_2 blockSize = true ->
  dimX1 * dimY1 <= 2 ^ 32 -> dimX2 * dimY2 <= 2 ^ 32 -> dimY1 * dimX2 <= 2 ^ 32 ->
  let gridDim := dim3_2 (MatrixMulNxmInt.gridSizeX dimX1 dimX2 blockSize)
                        (MatrixMulNxmInt.gridSizeY dimY1 dimY2 blockSize) in
  let blockDim := dim3_2 blockSize blockSize in
  let c' := launch (MatrixMulNxmInt.matrixMul a b dimX1 dimY1 dimX2 blockDim)
                   gridDim blockDim c in
  (forall iX iY, 0 <= iX < dimX2 -> 0 <= iY < dimY1 ->
     c' (iY * dimX2 + iX) = int32 (dot a b dimX1 dimX2 iX iY))
  /\ (forall pos, ~ 0 <= pos < dimY1 * dimX2 -> c' pos = c pos).
Proof.
  intros HX1 HY1 HX2 HY2 Hbs H1X1 H1Y1 H1X2 Heq Hp HA HB HC gridDim blockDim c'.
  destruct (matrixMul_grid_bounds dimX1 dimY1 dimX2 dimY2 blockSize
              HX1 HY1 HX2 HY2 Hbs Hp) as (Hs & HbX & HbY).
  subst dimY2.
  assert (Hst : forall t, coord_x blockDim t < dimX2 -> coord_y blockDim t < dimY1 ->
            MatrixMulNxmInt.matrixMul a b dimX1 dimY1 dimX2 blockDim t
            = Some (coord_y blockDim t * dimX2 + coord_x blockDim t,
                    int32 (dot a b dimX1 dimX2 (coord_x blockDim t)
                                                (coord_y blockDim t)))).
  { intros t. now apply matrixMul_stores. }
  split.
  - intros iX iY HiX HiY. unfold c', launch. apply launch_stored.
    + intros t val' _ Hk.
      destruct (matrixMul_stores_inv _ _ _ _ _ _ _ _ Hk) as [Hx Hy].
      rewrite (Hst t Hx Hy) in Hk. injection Hk as Hpos <-.
      pose proof (coord_x_nonneg blockDim t). pose proof (coord_y_nonneg blockDim t).
      assert (coord_y blockDim t = iY) by nia.
      assert (coord_x blockDim t = iX) by nia.
      congruence.
    + destruct (thread_at_covers _ _ blockSize iX iY Hs (proj2 HbX) (proj2 HbY)
                  ltac:(lia) ltac:(lia)) as (Hin & Hx & Hy).
      exists (thread_at blockSize iX iY). split; [now apply In_threads|].
      fold blockDim in Hx, Hy. rewrite Hst by lia. now rewrite Hx, Hy.
  - intros pos Hpos. unfold c', launch. apply launch_untouched.
    intros t val _ Hk.
    destruct (matrixMul_stores_inv _ _ _ _ _ _ _ _ Hk) as [Hx Hy].
    rewrite (Hst t Hx Hy) in Hk. injection Hk as Hq _.
    pose proof (coord_x_nonneg blockDim t). pose proof (coord_y_nonneg blockDim t).
    apply Hpos. nia.
Qed.

(** ** Runs of the host programs *)

(** Unfolding a program down to the calls it makes.  The data (kernel
    results, reference results, verdicts) stay folded. *)
Ltac host_unfold :=
  cbv beta iota zeta delta
    [run MatrixMulNxmInt.main MatrixMulNxmInt.gpuMatrixMul
     VectorSumFloatOpt.main VectorSumFloatOpt.gpuVectorAdd
     MatrixAddNxmFloat.main MatrixAddNxmFloat.gpuMatrixAdd
     MatrixAddNxmFloatMain.main AddvecThreads.main
     Host.bind Host.ret Host.exit Host.invoke Host.perform Host.when
     Host.HANDLE_ERROR Host.HANDLE_NULL Host.oracle Host.trace
     Host.outstanding Host.boot Host.account Host.buffer_eqb
     List.length app filter negb fst snd].

(** One case split of the run: on a check of the arguments, on the
    result of a call, or on the verdict of the verification. *)
Ltac host_split env :=
  match goal with
  | |- context [if (?u <? ?v) then _ else _] => destruct (u <? v) eqn:?
  | |- context [if (if ?c then false else true) then _ else _] =>
      destruct c eqn:?
  | |- context [if env ?n then _ else _] => destruct (env n) eqn:?
  | |- context [match AddvecThreads.first_mismatch ?a ?b ?c with _ => _ end] =>
      destruct (AddvecThreads.first_mismatch a b c) eqn:?
  end.

Ltac host_run env := host_unfold; repeat (host_split env; host_unfold).

Section Acceptance.

Lemma accepted_VectorSum P ints :
  accepted (VectorSum P) ints = true ->
  (Host.argc ints <? 3) = false /\
  (Host.unsigned_arg ints 0 <? 1) = false /\
  Host.IS_POWER_OF_2 (Host.unsigned_arg ints 1) = true.
Proof.
  unfold accepted. cbn [wanted_argc dimensions forallb].
  rewrite !andb_true_iff, !Z.leb_le, !Z.ltb_ge. intuition lia.
Qed.

Lemma accepted_MatrixAdd P ints :
  accepted (MatrixAdd P) ints = true ->
  (Host.argc ints <? 4) = false /\
  (Host.unsigned_arg ints 0 <? 1) = false /\
  (Host.unsigned_arg ints 1 <? 1) = false /\
  (Host.unsigned_arg ints 2 <? 1) = false.
Proof.
  unfold accepted. cbn [wanted_argc dimensions forallb].
  rewrite !andb_true_iff, !Z.leb_le, !Z.ltb_ge. intuition lia.
Qed.

Lemma accepted_MatrixAddMain P cmp ints :
  accepted (MatrixAddMain P cmp) ints = true ->
  (Host.argc ints <? 4) = false /\
  (Host.unsigned_arg ints 0 <? 1) = false /\
  (Host.unsigned_arg ints 1 <? 1) = false /\
  (Host.unsigned_arg ints 2 <? 1) = false.
Proof.
  unfold accepted. cbn [wanted_argc dimensions forallb].
  rewrite !andb_true_iff, !Z.leb_le, !Z.ltb_ge. intuition lia.
Qed.

Lemma accepted_MatrixMul ints :
  accepted MatrixMul ints = true ->
  (Host.argc ints <? 6) = false /\
  (Host.unsigned_arg ints 0 <? 1) = false /\
  (Host.unsigned_arg ints 1 <? 1) = false /\
  (Host.unsigned_arg ints 2 <? 1) = false /\
  (Host.unsigned_arg ints 3 =? Host.unsigned_arg ints 0) = true /\
  Host.IS_POWER_OF_2 (Host.unsigned_arg ints 4) = true.
Proof.
  unfold accepted. cbn [wanted_argc dimensions forallb].
  rewrite !andb_true_iff, !Z.leb_le, !Z.ltb_ge. intuition lia.
Qed.

End Acceptance.

(** Replacing the checks of an accepted argument list by their results. *)
Ltac host_accept p ints H :=
  lazymatch p with
  | VectorSum ?P =>
      destruct (accepted_VectorSum P ints H) as (?A0 & ?A1 & ?A2);
      host_unfold; rewrite A0, A1, A2
  | MatrixAdd ?P =>
      destruct (accepted_MatrixAdd P ints H) as (?A0 & ?A1 & ?A2 & ?A3);
      host_unfold; rewrite A0, A1, A2, A3
  | MatrixAddMain ?P ?cmp =>
      destruct (accepted_MatrixAddMain P cmp ints H) as (?A0 & ?A1 & ?A2 & ?A3);
      host_unfold; rewrite A0, A1, A2, A3
  | MatrixMul =>
      destruct (accepted_MatrixMul ints H) as (?A0 & ?A1 & ?A2 & ?A3 & ?A4 & ?A5);
      host_unfold; rewrite A0, A1, A2, A3, A4, A5
  | Addvec => idtac
  end.

(** A failing call contradicts the assumption that every call succeeds. *)
Ltac all_succeed_absurd Hall :=
  match goal with
  | E : _ = false |- _ => rewrite Hall in E; discriminate E
  end.

(** ** The checks of the arguments *)

(** A case split on the next check of the arguments. *)
Ltac check_split :=
  match goal with
  | |- context [if (?u <? ?v) then _ else _] =>
      destruct (Z.ltb_spec u v)
  | |- context [if (if (?u =? ?v) then false else true) then _ else _] =>
      destruct (Z.eqb_spec u v)
  end.

(** What the matrix sum of part_001 does with arguments that pass its
    checks, when every call succeeds: it queries the device, allocates
    the device buffers with the byte size computed from the extents, and
    prints no complaint about an argument. *)
Lemma MatrixAddMain_goes_on P cmp ints fmem imem env :
  accepted (MatrixAddMain P cmp) ints = true -> (forall n, env n = true) ->
  let tr := Host.trace (snd (run (MatrixAddMain P cmp) ints fmem imem (Host.boot env))) in
  passes_checks tr
  /\ In (Host.cudaMalloc Host.dev_a
           (MatrixAddNxmFloatMain.size_of P (Host.unsigned_arg ints 0)
                                            (Host.unsigned_arg ints 1)), true) tr
  /\ (forall m ok, In (Host.fprintf_stderr m, ok) tr -> classify m = None).
Proof.
  intros Hacc Hall tr. subst tr. unfold passes_checks.
  host_accept (MatrixAddMain P cmp) ints Hacc.
  host_run env; try all_succeed_absurd Hall;
    (split; [do 2 eexists; reflexivity|]); (split; [cbn; tauto|]);
    intros m ok; cbn; intros Hin;
    repeat match goal with
           | H : _ \/ _ |- _ => destruct H
           | H : False |- _ => destruct H
           | H : (_, _) = (_, _) |- _ =>
               first [discriminate H | injection H as ? ?]
           end;
    subst; reflexivity.
Qed.

(** C4. The extent 0 and the mismatch dimY2 <> dimX1 are refused before
    anything else happens: the run is the complaint and [exit(1)].  A
    negative extent is not: [atoi] returns -1 and -5, the [unsigned int]
    variables hold 4294967295 and 4294967291, both pass the test [< 1],
    and the matrix sum of part_001 goes on to query the device and to
    allocate its device buffers (of 20 bytes each, the byte size having
    wrapped); no complaint about a dimension is printed. *)
Theorem C4_negative_extent_accepted (matrix_equals : Reference.comparison) :
  let p := MatrixAddMain Real.Single matrix_equals in
  let fmem := constant_memory (S754_zero false) in
  let imem := constant_memory 0 in
  let tr := Host.trace (snd (run p [-1; -5; 2] fmem imem (Host.boot all_succeed))) in
  run p [0; 5; 2] fmem imem (Host.boot all_succeed)
  = (inl 1,
     Host.mk_world all_succeed
       [(Host.fprintf_stderr (Host.ExpectedGE1 "matrixDimX" 0), true)] [])
  /\ run MatrixMul [3; 2; 2; 2; 2] fmem imem (Host.boot all_succeed)
     = (inl 1,
        Host.mk_world all_succeed
          [(Host.fprintf_stderr
              (Host.ExpectedEqual "matrixDimY2" "matrixDimX1" 3 2), true)] [])
  /\ dimensions p [-1; -5; 2] = [4294967295; 4294967291]
  /\ accepted p [-1; -5; 2] = true
  /\ passes_checks tr
  /\ In (Host.cudaMalloc Host.dev_a
           (MatrixAddNxmFloatMain.size_of Real.Single 4294967295 4294967291),
         true) tr
  /\ MatrixAddNxmFloatMain.size_of Real.Single 4294967295 4294967291 = 20
  /\ (forall m ok, In (Host.fprintf_stderr m, ok) tr -> classify m = None).
Proof.
  intros p fmem imem tr.
  split; [reflexivity|]. split; [reflexivity|].
  split; [reflexivity|]. split; [reflexivity|].
  destruct (MatrixAddMain_goes_on Real.Single matrix_equals [-1; -5; 2]
              fmem imem all_succeed eq_refl (fun _ => eq_refl))
    as (Hpass & Halloc & Hquiet).
  split; [exact Hpass|]. split; [exact Halloc|].
  split; [reflexivity|]. exact Hquiet.
Qed.

Lemma valid_accepted p ints :
  wanted_argc p <= Host.argc ints ->
  valid_dimensions p ints ->
  match block_size p ints with
  | Some bs => if wants_power_of_2 p then Host.IS_POWER_OF_2 bs = true else 1 <= bs
  | None => True
  end ->
  accepted p ints = true.
Proof.
  intros Hargc [Hdims Heq] Hbs. unfold accepted.
  apply andb_true_intro. split; [apply andb_true_intro; split|].
  - now apply Z.leb_le.
  - apply forallb_forall. intros d Hd. apply Z.leb_le.
    rewrite Forall_forall in Hdims. now apply Hdims.
  - destruct p; cbn in *; auto.
    + now apply Z.leb_le.
    + now apply Z.leb_le.
    + apply andb_true_intro. split; [apply Z.eqb_eq; auto | assumption].
Qed.

(** The vector sum refuses the block size 3. *)
Lemma C5_vector_sum_refuses_3 :
  1 <= 3 /\
  valid_dimensions (VectorSum Real.Single) [8; 3] /\
  block_size (VectorSum Real.Single) [8; 3] = Some 3 /\
  run (VectorSum Real.Single) [8; 3]
      (constant_memory (S754_zero false)) (constant_memory 0)
      (Host.boot all_succeed)
  = (inl 1,
     Host.mk_world all_succeed
       [(Host.fprintf_stderr (Host.ExpectedPowerOf2 "blockSize" 3), true)] []).
Proof.
  split; [lia|]. split; [|split; reflexivity].
  split; [|discriminate].
  repeat constructor. vm_compute. discriminate.
Qed.

(** C5, as the code has it.  The matrix product and the vector sum check
    the block size with [IS_POWER_OF_2]: a block size that is not a power
    of two is refused, a power of two passes.  The two matrix sums check
    [blockSize >= 1] only: every positive block size passes. *)
Theorem C5_group_size_checks
    (p : program) (ints : list Z) (fmem : memory Real.REAL) (imem : memory Z)
    (env : nat -> bool) (bs : Z) :
  wanted_argc p <= Host.argc ints ->
  valid_dimensions p ints ->
  block_size p ints = Some bs ->
  let r := run p ints fmem imem (Host.boot env) in
  (wants_power_of_2 p = true ->
     (Host.IS_POWER_OF_2 bs = false ->
        r = (inl 1,
             Host.mk_world env
               [(Host.fprintf_stderr (Host.ExpectedPowerOf2 "blockSize" bs), true)]
               []))
     /\ (Host.IS_POWER_OF_2 bs = true -> passes_checks (Host.trace (snd r))))
  /\
  (wants_power_of_2 p = false ->
     (bs < 1 ->
        r = (inl 1,
             Host.mk_world env
               [(Host.fprintf_stderr (Host.ExpectedGE1 "blockSize" bs), true)] []))
     /\ (1 <= bs -> passes_checks (Host.trace (snd r)))).
Proof.
  intros Hargc Hvalid Hbs r. subst r.
  assert (Hpass : (if wants_power_of_2 p then Host.IS_POWER_OF_2 bs = true else 1 <= bs) ->
                  passes_checks
                    (Host.trace (snd (run p ints fmem imem (Host.boot env))))).
  { intros Hok.
    assert (Hacc : accepted p ints = true).
    { apply valid_accepted; try assumption. now rewrite Hbs. }
    unfold passes_checks.
    destruct p as [P | P | P cmp | |].
    - host_accept (VectorSum P) ints Hacc. host_run env; do 2 eexists; reflexivity.
    - host_accept (MatrixAdd P) ints Hacc. host_run env; do 2 eexists; reflexivity.
    - host_accept (MatrixAddMain P cmp) ints Hacc. host_run env; do 2 eexists; reflexivity.
    - host_accept MatrixMul ints Hacc. host_run env; do 2 eexists; reflexivity.
    - discriminate Hbs. }
  destruct Hvalid as [Hdims Heq].
  destruct p as [P | P | P cmp | |]; cbn [wanted_argc dimensions block_size] in *;
    try discriminate Hbs; injection Hbs as <-;
    repeat match goal with
           | H : Forall _ (_ :: _) |- _ => inversion H; subst; clear H
           | H : Forall _ [] |- _ => clear H
           end;
    (split; intros Hw; [|try discriminate Hw]; try discriminate Hw;
     split; intros Hb; try (apply Hpass; exact Hb)).
  - host_unfold.
    rewrite (proj2 (Z.ltb_ge _ _)), (proj2 (Z.ltb_ge _ _)), Hb by lia.
    reflexivity.
  - host_unfold.
    rewrite !(proj2 (Z.ltb_ge _ _)) by lia.
    rewrite (proj2 (Z.ltb_lt _ _)) by lia.
    reflexivity.
  - host_unfold.
    rewrite !(proj2 (Z.ltb_ge _ _)) by lia.
    rewrite (proj2 (Z.ltb_lt _ _)) by lia.
    reflexivity.
  - host_unfold.
    rewrite !(proj2 (Z.ltb_ge _ _)) by lia.
    rewrite (proj2 (Z.eqb_eq _ _)) by auto.
    rewrite Hb. reflexivity.
Qed.

(** The matrix sum accepts the block size 3. *)
Lemma C5_group_size_checks_witness :
  passes_checks
    (Host.trace
       (snd (run (MatrixAdd Real.Single) [4; 4; 3]
               (constant_memory (S754_zero false)) (constant_memory 0)
               (Host.boot all_succeed)))).
Proof.
  apply (C5_group_size_checks (MatrixAdd Real.Single) [4; 4; 3]
           (constant_memory (S754_zero false)) (constant_memory 0)
           all_succeed 3).
  - vm_compute. discriminate.
  - split; [repeat constructor; vm_compute; discriminate | discriminate].
  - reflexivity.
  - reflexivity.
  - lia.
Defined.

(** ** The grid of the vector sum *)

(** The launch of the vector sum, for accepted arguments and calls that
    all succeed. *)
Lemma VectorSum_launch P ints fmem imem env :
  accepted (VectorSum P) ints = true -> (forall n, env n = true) ->
  In (Host.kernel_launch
        (dim3_1 (VectorSumFloatOpt.gridSize (Host.unsigned_arg ints 0)
                                            (Host.unsigned_arg ints 1)))
        (dim3_1 (Host.unsigned_arg ints 1)), true)
     (Host.trace (snd (run (VectorSum P) ints fmem imem (Host.boot env)))).
Proof.
  intros Hacc Hall.
  host_accept (VectorSum P) ints Hacc.
  host_run env; try all_succeed_absurd Hall; cbn; tauto.
Qed.

(** C3. The planner of the vector sum, [(vectorDim + blockSize - 1) /
    blockSize] in [unsigned int] arithmetic, does not return the ceiling
    for the extent 4294967295 (the argument -1) and the group size 2,
    which [main] accepts: the sum wraps to 0 and the group count is 0, so
    that groupCount * G >= E fails and the kernel is launched on a grid
    of 0 blocks.  The ceiling is 2147483648, and the divide-then-adjust
    planner of the matrix programs returns it. *)
Theorem C3_gridSize_wraps :
  accepted (VectorSum Real.Single) [-1; 2] = true /\
  dimensions (VectorSum Real.Single) [-1; 2] = [4294967295] /\
  VectorSumFloatOpt.gridSize 4294967295 2 = 0 /\
  ~ (VectorSumFloatOpt.gridSize 4294967295 2 * 2 >= 4294967295) /\
  ceil_div 4294967295 2 = 2147483648 /\
  Host.grid_size_of 4294967295 2 = 2147483648 /\
  In (Host.kernel_launch (dim3_1 0) (dim3_1 2), true)
     (Host.trace
        (snd (run (VectorSum Real.Single) [-1; 2]
                (constant_memory (S754_zero false)) (constant_memory 0)
                (Host.boot all_succeed)))).
Proof.
  split; [reflexivity|]. split; [reflexivity|]. split; [reflexivity|].
  split; [vm_compute; intros H; now apply H|].
  split; [reflexivity|]. split; [reflexivity|].
  exact (VectorSum_launch Real.Single [-1; 2]
           (constant_memory (S754_zero false)) (constant_memory 0)
           all_succeed eq_refl (fun _ => eq_refl)).
Qed.

(** ** The lifecycle of the device buffers *)

(** C7, as the code has it.  Whenever a program returns from [main] ---
    the verification having passed or failed --- the three device buffers
    it acquired have been released and none is outstanding; and for
    arguments that [main] accepts the program does return, with status 0,
    when every call succeeds.  (A call that fails ends the process inside
    [HANDLE_ERROR]; nothing is released on that path.) *)
Theorem C7_buffers_released_on_return
    (p : program) (ints : list Z) (fmem : memory Real.REAL) (imem : memory Z)
    (env : nat -> bool) :
  let r := run p ints fmem imem (Host.boot env) in
  (forall code, fst r = inr code ->
     Host.outstanding (snd r) = [] /\
     acquired (Host.trace (snd r)) = [Host.dev_a; Host.dev_b; Host.dev_c] /\
     released (Host.trace (snd r)) = [Host.dev_a; Host.dev_b; Host.dev_c])
  /\
  (accepted p ints = true -> (forall n, env n = true) -> fst r = inr 0).
Proof.
  intros r. subst r. split.
  - destruct p as [P | P | P cmp | |]; host_run env;
      intros code Hc; try discriminate Hc; repeat split; reflexivity.
  - intros Hacc Hall.
    destruct p as [P | P | P cmp | |].
    + host_accept (VectorSum P) ints Hacc.
      host_run env; try all_succeed_absurd Hall; reflexivity.
    + host_accept (MatrixAdd P) ints Hacc.
      host_run env; try all_succeed_absurd Hall; reflexivity.
    + host_accept (MatrixAddMain P cmp) ints Hacc.
      host_run env; try all_succeed_absurd Hall; reflexivity.
    + host_accept MatrixMul ints Hacc.
      host_run env; try all_succeed_absurd Hall; reflexivity.
    + host_run env; try all_succeed_absurd Hall; reflexivity.
Qed.

(** The second [cudaMalloc] of the matrix product fails: the process
    exits with [dev_a] still allocated. *)
Lemma C7_fatal_error_leaks :
  let r := run MatrixMul [2; 2; 2; 2; 2]
             (constant_memory (S754_zero false)) (constant_memory 0)
             (Host.boot (fails_at 6)) in
  accepted MatrixMul [2; 2; 2; 2; 2] = true /\
  fst r = inl 1 /\
  Host.outstanding (snd r) = [Host.dev_a] /\
  List.length (Host.outstanding (snd r)) <> 0%nat.
Proof. vm_compute. repeat split; discriminate. Qed.

Lemma C7_buffers_released_on_return_witness :
  Host.outstanding
    (snd (run MatrixMul [2; 2; 2; 2; 2]
            (constant_memory (S754_zero false)) (constant_memory 0)
            (Host.boot all_succeed))) = [].
Proof.
  destruct (C7_buffers_released_on_return MatrixMul [2; 2; 2; 2; 2]
              (constant_memory (S754_zero false)) (constant_memory 0)
              all_succeed) as [H Hret].
  apply (H 0). apply Hret; reflexivity.
Defined.

(** ** The order of uploads, dispatch and download *)

(** C8. In every run of every program the stream operations satisfy the
    ordering contract: each upload is issued before the dispatch, the
    dispatch after both inputs were uploaded, and the download after the
    dispatch.  When the arguments are accepted and every call succeeds
    the stream sees exactly: upload of a, upload of b, dispatch, download
    of c. *)
Theorem C8_stream_order
    (p : program) (ints : list Z) (fmem : memory Real.REAL) (imem : memory Z)
    (env : nat -> bool) :
  let tr := Host.trace (snd (run p ints fmem imem (Host.boot env))) in
  ordered [] false (stream_ops tr) = true /\
  (accepted p ints = true -> (forall n, env n = true) ->
   stream_ops tr
   = [Upload Host.dev_a; Upload Host.dev_b; Dispatch; Download Host.dev_c]).
Proof.
  intros tr. subst tr. split.
  - destruct p as [P | P | P cmp | |]; host_run env; reflexivity.
  - intros Hacc Hall.
    destruct p as [P | P | P cmp | |].
    + host_accept (VectorSum P) ints Hacc.
      host_run env; try all_succeed_absurd Hall; reflexivity.
    + host_accept (MatrixAdd P) ints Hacc.
      host_run env; try all_succeed_absurd Hall; reflexivity.
    + host_accept (MatrixAddMain P cmp) ints Hacc.
      host_run env; try all_succeed_absurd Hall; reflexivity.
    + host_accept MatrixMul ints Hacc.
      host_run env; try all_succeed_absurd Hall; reflexivity.
    + host_run env; try all_succeed_absurd Hall; reflexivity.
Qed.

Lemma C8_stream_order_witness :
  stream_ops
    (Host.trace
       (snd (run (VectorSum Real.Single) [8; 4]
               (constant_memory (S754_zero false)) (constant_memory 0)
               (Host.boot all_succeed))))
  = [Upload Host.dev_a; Upload Host.dev_b; Dispatch; Download Host.dev_c].
Proof.
  apply (C8_stream_order (VectorSum Real.Single) [8; 4]
           (constant_memory (S754_zero false)) (constant_memory 0) all_succeed).
  - reflexivity.
  - reflexivity.
Defined.

(** ** Byte sizes *)

Create HintDb sizes.

Lemma MatrixMul_size_of_wrap u v :
  MatrixMulNxmInt.size_of u v = (u * v * 4) mod 2 ^ 32.
Proof. unfold MatrixMulNxmInt.size_of. apply uint32_mul_l. Qed.

Lemma VectorSum_size_of_wrap P u :
  VectorSumFloatOpt.size_of P u = (u * Real.sizeof P) mod 2 ^ 32.
Proof. reflexivity. Qed.

Lemma MatrixAdd_size_of_wrap P u v :
  MatrixAddNxmFloat.size_of P u v = (u * v * Real.sizeof P) mod 2 ^ 32.
Proof. unfold MatrixAddNxmFloat.size_of. apply uint32_mul_l. Qed.

Lemma MatrixAddMain_size_of_wrap P u v :
  MatrixAddNxmFloatMain.size_of P u v = (u * v * Real.sizeof P) mod 2 ^ 32.
Proof. unfold MatrixAddNxmFloatMain.size_of. apply uint32_mul_l. Qed.

Lemma Addvec_size_wrap : AddvecThreads.size = (AddvecThreads.N * 4) mod 2 ^ 32.
Proof. reflexivity. Qed.

#[local] Hint Resolve MatrixMul_size_of_wrap VectorSum_size_of_wrap
  MatrixAdd_size_of_wrap MatrixAddMain_size_of_wrap Addvec_size_wrap : sizes.

(** The sizes of a finished trace, event by event. *)
Ltac sizes_leaf :=
  repeat (apply Forall_cons; [cbn; auto with sizes|]); apply Forall_nil.

(** C10. Every byte size that a program passes to an allocation or to a
    transfer is the product extent * sizeof(element) (extentX * extentY *
    sizeof(element) for a matrix) reduced modulo 2^32.  No check looks at
    the product: for accepted arguments each device buffer is allocated
    with the reduced size, whatever the true size is. *)
Theorem C10_sizes_wrap
    (p : program) (ints : list Z) (fmem : memory Real.REAL) (imem : memory Z)
    (env : nat -> bool) :
  let tr := Host.trace (snd (run p ints fmem imem (Host.boot env))) in
  Forall (size_wrapped p ints) tr /\
  (accepted p ints = true -> (forall n, env n = true) ->
   forall buf,
     In (Host.cudaMalloc buf ((elements p ints buf * sizeof_elem p) mod 2 ^ 32),
         true) tr).
Proof.
  intros tr. subst tr. split.
  - destruct p as [P | P | P cmp | |]; host_run env; sizes_leaf.
  - intros Hacc Hall buf.
    destruct p as [P | P | P cmp | |].
    + host_accept (VectorSum P) ints Hacc.
      host_run env; try all_succeed_absurd Hall;
        rewrite !VectorSum_size_of_wrap; destruct buf; cbn; tauto.
    + host_accept (MatrixAdd P) ints Hacc.
      host_run env; try all_succeed_absurd Hall;
        rewrite !MatrixAdd_size_of_wrap; destruct buf; cbn; tauto.
    + host_accept (MatrixAddMain P cmp) ints Hacc.
      host_run env; try all_succeed_absurd Hall;
        rewrite !MatrixAddMain_size_of_wrap; destruct buf; cbn; tauto.
    + host_accept MatrixMul ints Hacc.
      host_run env; try all_succeed_absurd Hall;
        rewrite !MatrixMul_size_of_wrap; destruct buf; cbn; tauto.
    + host_run env; try all_succeed_absurd Hall;
        rewrite !Addvec_size_wrap; destruct buf; cbn; tauto.
Qed.

(** Vectors of 2^30 floats take 2^32 bytes; the buffers are allocated
    with size 0. *)
Lemma C10_sizes_wrap_witness :
  In (Host.cudaMalloc Host.dev_a 0, true)
     (Host.trace
        (snd (run (VectorSum Real.Single) [1073741824; 256]
                (constant_memory (S754_zero false)) (constant_memory 0)
                (Host.boot all_succeed)))).
Proof.
  exact (proj2 (C10_sizes_wrap (VectorSum Real.Single) [1073741824; 256]
                  (constant_memory (S754_zero false)) (constant_memory 0)
                  all_succeed)
               eq_refl (fun _ => eq_refl) Host.dev_a).
Defined.

(** ** The verification of the results *)

Section Verification.

Lemma forallb_zrange (f : Z -> bool) n : forall lo,
  forallb f (zrange lo n) = true <->
  (forall i, lo <= i < lo + Z.of_nat n -> f i = true).
Proof.
  induction n as [|n IH]; intros lo; cbn [zrange forallb].
  - split; [intros _ i Hi; lia | reflexivity].
  - rewrite andb_true_iff, IH. split.
    + intros [H0 Hr] i Hi. destruct (Z.eq_dec i lo) as [-> | Hne]; [exact H0|].
      apply Hr. lia.
    + intros H. split; [apply H; lia | intros i Hi; apply H; lia].
Qed.

Lemma forallb_upto (f : Z -> bool) count :
  forallb f (zrange 0 (Z.to_nat count)) = true <->
  (forall i, 0 <= i < count -> f i = true).
Proof.
  rewrite forallb_zrange. split; intros H i Hi; apply H; lia.
Qed.

Lemma fill_inside {T : Type} (old f : Z -> T) count i :
  0 <= i < count -> Reference.fill old count f i = f i.
Proof.
  intros Hi. unfold Reference.fill.
  now rewrite (proj2 (Z.leb_le 0 i)), (proj2 (Z.ltb_lt i count)) by lia.
Qed.



End Verification.



(** ** The matrix product, from the arguments to the verdict *)

Section Product.

Lemma zsum_ext f g n : forall lo,
  (forall k, lo <= k < lo + Z.of_nat n -> f k = g k) ->
  zsum f lo n = zsum g lo n.
Proof.
  induction n as [|n IH]; intros lo H; cbn [zsum]; [reflexivity|].
  rewrite (H lo) by lia. rewrite (IH (lo + 1)); [reflexivity|].
  intros k Hk. apply H. lia.
Qed.

Lemma dot_ext a a' b b' dimX1 dimX2 iX iY :
  0 <= dimX1 ->
  (forall k, 0 <= k < dimX1 -> a (iY * dimX1 + k) = a' (iY * dimX1 + k)) ->
  (forall k, 0 <= k < dimX1 -> b (k * dimX2 + iX) = b' (k * dimX2 + iX)) ->
  dot a b dimX1 dimX2 iX iY = dot a' b' dimX1 dimX2 iX iY.
Proof.
  intros H0 Ha Hb. unfold dot. apply zsum_ext.
  intros k Hk. rewrite Z2Nat.id in Hk by lia.
  now rewrite Ha, Hb by lia.
Qed.

Lemma memcpy_inside {T : Type} (dst src : Z -> T) count i :
  0 <= i < count -> memcpy dst src count i = src i.
Proof.
  intros Hi. unfold memcpy.
  now rewrite (proj2 (Z.leb_le 0 i)), (proj2 (Z.ltb_lt i count)) by lia.
Qed.

(** A byte size that does not wrap gives back the number of elements. *)
Lemma MatrixMul_size_exact u v :
  0 <= u * v -> u * v * 4 < 2 ^ 32 ->
  MatrixMulNxmInt.size_of u v / MatrixMulNxmInt.sizeof_int = u * v.
Proof.
  intros H0 H. rewrite MatrixMul_size_of_wrap, Z.mod_small by lia.
  unfold MatrixMulNxmInt.sizeof_int. now rewrite Z.div_mul by lia.
Qed.

Variables (a b : Z -> Z) (on_host_c on_expected in_dev_a in_dev_b in_dev_c : Z -> Z).
Variables (dimX1 dimY1 dimX2 dimY2 blockSize : Z).

Hypothesis dimX1_range : is_uint32 dimX1.
Hypothesis dimY1_range : is_uint32 dimY1.
Hypothesis dimX2_range : is_uint32 dimX2.
Hypothesis dimY2_range : is_uint32 dimY2.
Hypothesis blockSize_range : is_uint32 blockSize.
Hypothesis dimX1_pos : 1 <= dimX1.
Hypothesis dimY1_pos : 1 <= dimY1.
Hypothesis dimX2_pos : 1 <= dimX2.
Hypothesis dims_agree : dimY2 = dimX1.
Hypothesis blockSize_power : Host.IS_POWER_OF_2 blockSize = true.
Hypothesis size_a_exact : dimX1 * dimY1 * 4 < 2 ^ 32.
Hypothesis size_b_exact : dimX2 * dimY2 * 4 < 2 ^ 32.
Hypothesis size_c_exact : dimY1 * dimX2 * 4 < 2 ^ 32.

(** When the three byte sizes do not wrap, what comes back from the
    device passes the comparison with the host's product. *)
Lemma matrixMul_verdict :
  let gridDim := dim3_2 (MatrixMulNxmInt.gridSizeX dimX1 dimX2 blockSize)
                        (MatrixMulNxmInt.gridSizeY dimY1 dimY2 blockSize) in
  let blockDim := dim3_2 blockSize blockSize in
  let on_dev_a :=
    memcpy in_dev_a a
      (MatrixMulNxmInt.size_of dimX1 dimY1 / MatrixMulNxmInt.sizeof_int) in
  let on_dev_b :=
    memcpy in_dev_b b
      (MatrixMulNxmInt.size_of dimX2 dimY2 / MatrixMulNxmInt.sizeof_int) in
  let on_dev_c :=
    launch (MatrixMulNxmInt.matrixMul on_dev_a on_dev_b dimX1 dimY1 dimX2 blockDim)
           gridDim blockDim in_dev_c in
  Reference.matrix_equals_int
    (memcpy on_host_c on_dev_c
       (MatrixMulNxmInt.size_of dimY1 dimX2 / MatrixMulNxmInt.sizeof_int))
    (Reference.matrix_mul_int a b on_expected dimX1 dimY1 dimX2)
    dimX2 dimY1
  = true.
Proof.
  intros gridDim blockDim on_dev_a on_dev_b on_dev_c.
  unfold is_uint32 in *.
  unfold Reference.matrix_equals_int. apply forallb_upto. intros i Hi.
  apply Z.eqb_eq.
  rewrite MatrixMul_size_exact by nia.
  rewrite memcpy_inside by lia.
  unfold Reference.matrix_mul_int. rewrite fill_inside by lia.
  pose proof (Z.div_mod i dimX2 ltac:(lia)) as Hd.
  pose proof (Z.mod_pos_bound i dimX2 ltac:(lia)) as Hm.
  assert (Hq : 0 <= i / dimX2 < dimY1).
  { split; [apply Z.div_pos; lia|]. apply Z.div_lt_upper_bound; lia. }
  destruct (matrixMul_launch_product on_dev_a on_dev_b in_dev_c
              dimX1 dimY1 dimX2 dimY2 blockSize) as [Hprod _];
    try assumption; try (unfold is_uint32; lia).
  replace i with (i / dimX2 * dimX2 + i mod dimX2) at 1 by lia.
  unfold on_dev_c, gridDim, blockDim. rewrite (Hprod _ _ Hm Hq).
  f_equal. subst dimY2. apply dot_ext; [lia | |].
  - intros k Hk. unfold on_dev_a.
    rewrite MatrixMul_size_exact by nia. apply memcpy_inside. nia.
  - intros k Hk. unfold on_dev_b.
    rewrite MatrixMul_size_exact by nia. apply memcpy_inside. nia.
Qed.

End Product.

(** The matrix product whose byte sizes do not wrap runs to its end and
    reports [Correct] when every call succeeds. *)
Theorem MatrixMul_reports_correct
    (ints : list Z) (fmem : memory Real.REAL) (imem : memory Z)
    (env : nat -> bool) :
  accepted MatrixMul ints = true -> (forall n, env n = true) ->
  elements MatrixMul ints Host.dev_a * 4 < 2 ^ 32 ->
  elements MatrixMul ints Host.dev_b * 4 < 2 ^ 32 ->
  elements MatrixMul ints Host.dev_c * 4 < 2 ^ 32 ->
  let r := run MatrixMul ints fmem imem (Host.boot env) in
  fst r = inr 0 /\ In (Host.printf Host.Correct, true) (Host.trace (snd r)).
Proof.
  intros Hacc Hall Ha Hb Hc r. subst r. cbn [elements] in Ha, Hb, Hc.
  assert (Hu : forall i, is_uint32 (Host.unsigned_arg ints i))
    by (intros i; apply uint32_range).
  pose proof (accepted_MatrixMul ints Hacc) as (_ & H1 & H2 & H3 & H4 & H5).
  apply Z.ltb_ge in H1, H2, H3. apply Z.eqb_eq in H4.
  host_accept MatrixMul ints Hacc.
  host_run env; try all_succeed_absurd Hall;
    try (split; [reflexivity | cbn; tauto]).
  exfalso.
  match goal with
  | E : ?verdict = false |- _ =>
      assert (Hv : verdict = true) by (apply matrixMul_verdict; auto);
      rewrite Hv in E; discriminate E
  end.
Qed.

(** ** The programs at work *)

(** The product of the identity and [[5,6],[7,8]] is [[5,6],[7,8]], and
    the program reports it correct. *)
Example matrix_product_2x2 :
  let a := fun i => nth (Z.to_nat i) [1; 0; 0; 1] 0 in
  let b := fun i => nth (Z.to_nat i) [5; 6; 7; 8] 0 in
  map (launch (MatrixMulNxmInt.matrixMul a b 2 2 2 (dim3_2 2 2))
              (dim3_2 1 1) (dim3_2 2 2) (fun _ => 0))
      [0; 1; 2; 3]
  = [5; 6; 7; 8]
  /\ In (Host.printf Host.Correct, true)
        (Host.trace
           (snd (run MatrixMul [2; 2; 2; 2; 2] (constant_memory S754_nan)
                   (mk_memory Z a b (fun _ _ => 0) (fun _ _ => 0))
                   (Host.boot all_succeed)))).
Proof. vm_compute. split; [reflexivity | tauto]. Qed.

(** 1 + 2 = 3 on 8 elements with blocks of 4 threads, and on 5 elements
    the last three threads leave the memory alone. *)
Example vector_sum_8 :
  let one := S754_finite false 8388608 (-23) in
  let two := S754_finite false 8388608 (-22) in
  let three := S754_finite false 12582912 (-22) in
  map (launch (VectorSumFloatOpt.vectorAdd Real.Single (fun _ => one) (fun _ => two)
                 8 (dim3_1 4))
              (dim3_1 (VectorSumFloatOpt.gridSize 8 4)) (dim3_1 4)
              (fun _ => S754_nan))
      [0; 1; 2; 3; 4; 5; 6; 7; 8]
  = [three; three; three; three; three; three; three; three; S754_nan]
  /\
  map (launch (VectorSumFloatOpt.vectorAdd Real.Single (fun _ => one) (fun _ => two)
                 5 (dim3_1 4))
              (dim3_1 (VectorSumFloatOpt.gridSize 5 4)) (dim3_1 4)
              (fun _ => S754_nan))
      [0; 1; 2; 3; 4; 5; 6; 7]
  = [three; three; three; three; three; S754_nan; S754_nan; S754_nan].
Proof. vm_compute. split; reflexivity. Qed.

(** * Further properties of the kernels and of the host programs *)


(** ** The planners, for every unsigned input *)

(** X1. The grid size of the three matrix programs ([g = dim / blockSize;
    if (g * blockSize < dim) g += 1;]) is the ceiling of dim / blockSize
    for every [unsigned int] extent and every block size from 1 on: an
    [unsigned int] g with (g - 1) * blockSize < dim <= g * blockSize;
    nothing wraps on the way. *)
Theorem matrix_grid_size_is_ceiling (dim blockSize : Z) :
  is_uint32 dim -> is_uint32 blockSize -> 1 <= blockSize ->
  let g := Host.grid_size_of dim blockSize in
  is_uint32 g /\ (g - 1) * blockSize < dim <= g * blockSize.
Proof.
  intros Hd Hb H1 g. subst g.
  split; [unfold Host.grid_size_of; destruct (_ <? _); apply uint32_range|].
  rewrite grid_size_of_ceil by assumption.
  destruct (ceil_div_spec dim blockSize H1). lia.
Qed.

Lemma matrix_grid_size_is_ceiling_witness :
  (Host.grid_size_of 4294967295 7 - 1) * 7 < 4294967295
  <= Host.grid_size_of 4294967295 7 * 7.
Proof.
  apply (matrix_grid_size_is_ceiling 4294967295 7); unfold is_uint32; lia.
Defined.

(** X2. The grid size of the vector sum ([(vectorDim + blockSize - 1) /
    blockSize]) is the ceiling of vectorDim / blockSize as long as
    vectorDim + blockSize - 1 is an [unsigned int]; the launch then has
    fewer than vectorDim + blockSize threads, so that no thread
    coordinate wraps. *)
Theorem vector_grid_size_is_ceiling (vectorDim blockSize : Z) :
  0 <= vectorDim -> 1 <= blockSize -> vectorDim + blockSize - 1 < 2 ^ 32 ->
  let g := VectorSumFloatOpt.gridSize vectorDim blockSize in
  (g - 1) * blockSize < vectorDim <= g * blockSize
  /\ g * blockSize < vectorDim + blockSize.
Proof.
  intros Hd Hb Hs g. subst g.
  unfold VectorSumFloatOpt.gridSize.
  rewrite (uint32_small (vectorDim + blockSize - 1)) by lia.
  pose proof (Z.div_mod (vectorDim + blockSize - 1) blockSize ltac:(lia)) as Hq.
  pose proof (Z.mod_pos_bound (vectorDim + blockSize - 1) blockSize ltac:(lia)) as Hm.
  assert (0 <= (vectorDim + blockSize - 1) / blockSize) by (apply Z.div_pos; lia).
  rewrite uint32_small by nia.
  nia.
Qed.

Lemma vector_grid_size_is_ceiling_witness :
  (VectorSumFloatOpt.gridSize 1000 256 - 1) * 256 < 1000
  <= VectorSumFloatOpt.gridSize 1000 256 * 256.
Proof. apply (vector_grid_size_is_ceiling 1000 256); lia. Defined.

(** ** What the launches of the sums leave in memory *)

Section Sums.

(** Along one axis every coordinate below the number of threads, and
    below 2^32, is the coordinate of a thread, whether or not the
    coordinates of other threads wrap. *)
Lemma axis_covers g s i :
  1 <= s -> 0 <= i < g * s -> i < 2 ^ 32 ->
  0 <= i / s < g /\ 0 <= i mod s < s /\ uint32 (i / s * s + i mod s) = i.
Proof.
  intros Hs Hi Hlt.
  pose proof (Z.div_mod i s ltac:(lia)) as Hd.
  pose proof (Z.mod_pos_bound i s ltac:(lia)) as Hm.
  assert (0 <= i / s) by (apply Z.div_pos; lia).
  repeat split; try lia; try nia.
  rewrite uint32_small; nia.
Qed.

Lemma launch_ext {T : Type} (k1 k2 : thread -> option (Z * T)) g k c :
  (forall t, k1 t = k2 t) -> launch k1 g k c = launch k2 g k c.
Proof.
  intros H. unfold launch. generalize (threads g k) c.
  induction l as [|t l IH]; intros c0; cbn; [reflexivity|].
  now rewrite H, IH.
Qed.

(** An offset [iY * dimX + iX] with [iX < dimX] determines [iX] and [iY]. *)
Lemma offset_injective dimX iX iY iX' iY' :
  0 <= iX < dimX -> 0 <= iX' < dimX ->
  iY * dimX + iX = iY' * dimX + iX' -> iX = iX' /\ iY = iY'.
Proof.
  intros H H' E.
  assert (iX = iX').
  { rewrite <- (Z.mod_small iX dimX), <- (Z.mod_small iX' dimX) by lia.
    rewrite <- (Z.mod_add iX iY dimX), <- (Z.mod_add iX' iY' dimX) by lia.
    f_equal. lia. }
  split; [assumption|]. subst iX'. nia.
Qed.

(** The two kernels of matrix_add_nxm_float.cu, the one returning early
    outside the matrix and the one storing under the opposite test, do
    the same. *)
Lemma add_is_matrixAdd P a b dimX dimY k t :
  MatrixAddNxmFloatMain.add P a b dimX dimY k t
  = MatrixAddNxmFloat.matrixAdd P a b dimX dimY k t.
Proof.
  unfold MatrixAddNxmFloatMain.add, MatrixAddNxmFloat.matrixAdd.
  rewrite !Z.geb_leb.
  destruct (Z.ltb_spec (coord_x k t) dimX), (Z.leb_spec dimX (coord_x k t));
    try lia;
    destruct (Z.ltb_spec (coord_y k t) dimY), (Z.leb_spec dimY (coord_y k t));
    try lia; reflexivity.
Qed.

(** What a thread of [matrixAdd] stores, when it stores. *)
Lemma matrixAdd_stores_inv P a b dimX dimY k t pos val :
  MatrixAddNxmFloat.matrixAdd P a b dimX dimY k t = Some (pos, val) ->
  coord_x k t < dimX /\ coord_y k t < dimY /\
  pos = uint32 (uint32 (coord_y k t * dimX) + coord_x k t) /\
  val = Real.add P (a pos) (b pos).
Proof.
  unfold MatrixAddNxmFloat.matrixAdd.
  destruct (coord_x k t >=? dimX) eqn:EX; [discriminate|].
  destruct (coord_y k t >=? dimY) eqn:EY; [discriminate|].
  cbn. intros [= <- <-].
  rewrite Z.geb_leb in EX, EY. apply Z.leb_gt in EX, EY. auto.
Qed.

(** The launch of [matrixAdd] on a grid that covers the matrix. *)
Lemma matrixAdd_launch_covering P a b c dimX dimY gx gy blockSize :
  is_uint32 dimX -> is_uint32 dimY -> 1 <= blockSize ->
  dimX * dimY <= 2 ^ 32 ->
  dimX <= gx * blockSize -> dimY <= gy * blockSize ->
  let c' := launch (MatrixAddNxmFloat.matrixAdd P a b dimX dimY
                      (dim3_2 blockSize blockSize))
                   (dim3_2 gx gy) (dim3_2 blockSize blockSize) c in
  (forall i, 0 <= i < dimX * dimY -> c' i = Real.add P (a i) (b i))
  /\ (forall i, ~ 0 <= i < dimX * dimY -> c' i = c i).
Proof.
  intros HX HY Hs Hn HcX HcY c'. unfold is_uint32 in *. split.
  - intros i Hi. unfold c', launch. apply launch_stored.
    + intros t val _ Hk.
      now destruct (matrixAdd_stores_inv _ _ _ _ _ _ _ _ _ Hk) as (_ & _ & _ & ->).
    + assert (H1 : 1 <= dimX) by nia.
      pose proof (Z.div_mod i dimX ltac:(lia)) as Hd.
      pose proof (Z.mod_pos_bound i dimX ltac:(lia)) as Hm.
      assert (Hq : 0 <= i / dimX < dimY).
      { split; [apply Z.div_pos; lia|]. apply Z.div_lt_upper_bound; lia. }
      destruct (axis_covers gx blockSize (i mod dimX) Hs ltac:(lia) ltac:(lia))
        as (Hbx & Htx & Hcx).
      destruct (axis_covers gy blockSize (i / dimX) Hs ltac:(lia) ltac:(lia))
        as (Hby & Hty & Hcy).
      exists (thread_at blockSize (i mod dimX) (i / dimX)). split.
      * apply In_threads. unfold in_launch, thread_at. cbn. lia.
      * unfold MatrixAddNxmFloat.matrixAdd.
        change (coord_x (dim3_2 blockSize blockSize)
                  (thread_at blockSize (i mod dimX) (i / dimX)))
          with (uint32 (i mod dimX / blockSize * blockSize
                        + (i mod dimX) mod blockSize)).
        change (coord_y (dim3_2 blockSize blockSize)
                  (thread_at blockSize (i mod dimX) (i / dimX)))
          with (uint32 (i / dimX / blockSize * blockSize
                        + (i / dimX) mod blockSize)).
        rewrite Hcx, Hcy.
        rewrite (geb_false (i mod dimX) dimX), (geb_false (i / dimX) dimY) by lia.
        cbn [orb].
        rewrite uint32_add_l, uint32_small by nia.
        replace (i / dimX * dimX + i mod dimX) with i by lia. reflexivity.
  - intros i Hi. unfold c', launch. apply launch_untouched.
    intros t val _ Hk.
    destruct (matrixAdd_stores_inv _ _ _ _ _ _ _ _ _ Hk) as (Hx & Hy & Hp & _).
    pose proof (coord_x_nonneg (dim3_2 blockSize blockSize) t).
    pose proof (coord_y_nonneg (dim3_2 blockSize blockSize) t).
    apply Hi. symmetry in Hp. subst i. apply matrix_pos_in_extent; lia.
Qed.

(** The grid that the matrix sums compute covers the matrix. *)
Lemma matrix_grid_covers dim blockSize :
  is_uint32 dim -> is_uint32 blockSize -> 1 <= blockSize ->
  dim <= Host.grid_size_of dim blockSize * blockSize.
Proof.
  intros Hd Hb H1. rewrite grid_size_of_ceil by assumption.
  destruct (ceil_div_spec dim blockSize H1). lia.
Qed.

(** What a thread of [vectorAdd] stores, when it stores. *)
Lemma vectorAdd_stores_inv P a b dim k t pos val :
  VectorSumFloatOpt.vectorAdd P a b dim k t = Some (pos, val) ->
  pos = coord_x k t /\ pos < dim /\ val = Real.add P (a pos) (b pos).
Proof.
  unfold VectorSumFloatOpt.vectorAdd.
  destruct (coord_x k t >=? dim) eqn:E; [discriminate|].
  intros [= <- <-]. rewrite Z.geb_leb in E. apply Z.leb_gt in E. auto.
Qed.

(** The launch of [vectorAdd] on a grid that covers the vector. *)
Lemma vectorAdd_launch_covering P a b c dim g blockSize :
  is_uint32 dim -> 1 <= blockSize -> dim <= g * blockSize ->
  let c' := launch (VectorSumFloatOpt.vectorAdd P a b dim (dim3_1 blockSize))
                   (dim3_1 g) (dim3_1 blockSize) c in
  (forall i, 0 <= i < dim -> c' i = Real.add P (a i) (b i))
  /\ (forall i, ~ 0 <= i < dim -> c' i = c i).
Proof.
  intros Hd Hs Hc c'. unfold is_uint32 in *. split.
  - intros i Hi. unfold c', launch. apply launch_stored.
    + intros t val _ Hk.
      now destruct (vectorAdd_stores_inv _ _ _ _ _ _ _ _ Hk) as (_ & _ & ->).
    + destruct (axis_covers g blockSize i Hs ltac:(lia) ltac:(lia))
        as (Hb & Ht & Hco).
      exists (mk_thread (mk_dim3 (i / blockSize) 0 0) (mk_dim3 (i mod blockSize) 0 0)).
      split.
      * apply In_threads. unfold in_launch. cbn. lia.
      * unfold VectorSumFloatOpt.vectorAdd.
        change (coord_x (dim3_1 blockSize)
                  (mk_thread (mk_dim3 (i / blockSize) 0 0)
                             (mk_dim3 (i mod blockSize) 0 0)))
          with (uint32 (i / blockSize * blockSize + i mod blockSize)).
        rewrite Hco, (geb_false i dim) by lia. reflexivity.
  - intros i Hi. unfold c', launch. apply launch_untouched.
    intros t val _ Hk.
    destruct (vectorAdd_stores_inv _ _ _ _ _ _ _ _ Hk) as (Hp & Hlt & _).
    pose proof (coord_x_nonneg (dim3_1 blockSize) t). apply Hi. lia.
Qed.

(** The launch [add<<< 1, N >>>] of addvec_threads.cu. *)
Lemma add_launch_covering a b c :
  let c' := launch (AddvecThreads.add a b)
                   AddvecThreads.gridDim AddvecThreads.blockDim c in
  (forall i, 0 <= i < AddvecThreads.N -> c' i = int32 (a i + b i))
  /\ (forall i, ~ 0 <= i < AddvecThreads.N -> c' i = c i).
Proof.
  intros c'. split.
  - intros i Hi. unfold c', launch. apply launch_stored.
    + intros t val _. unfold AddvecThreads.add. intros [= <- <-]. reflexivity.
    + exists (mk_thread (mk_dim3 0 0 0) (mk_dim3 i 0 0)). split.
      * apply In_threads. unfold in_launch. cbn. unfold AddvecThreads.N in *. lia.
      * reflexivity.
  - intros i Hi. unfold c', launch. apply launch_untouched.
    intros t val Hin. apply In_threads in Hin.
    destruct Hin as (_ & _ & _ & Htx & _). cbn in Htx.
    unfold AddvecThreads.add. intros [= <- _]. apply Hi. exact Htx.
Qed.

End Sums.

(** X3. The launch that [main] of matrix_mul_nxm_int.cu makes, on its grid
    of max-sized dimensions, leaves in every element i of the dimY1 x
    dimX2 result the [int] sum over k of A[(i / dimX2)*dimX1 + k] *
    B[k*dimX2 + i mod dimX2], and leaves memory past the result as it
    was.  The dimensions are those [main] accepts, each matrix having at
    most 2^32 elements. *)
Theorem matrixMul_launch_fills_result
    (a b c : Z -> Z) (dimX1 dimY1 dimX2 dimY2 blockSize : Z) :
  is_uint32 dimX1 -> is_uint32 dimY1 -> is_uint32 dimX2 -> is_uint32 dimY2 ->
  is_uint32 blockSize ->
  1 <= dimX1 -> 1 <= dimY1 -> 1 <= dimX2 -> dimY2 = dimX1 ->
  Host.IS_POWER_OF_2 blockSize = true ->
  dimX1 * dimY1 <= 2 ^ 32 -> dimX2 * dimY2 <= 2 ^ 32 -> dimY1 * dimX2 <= 2 ^ 32 ->
  let gridDim := dim3_2 (MatrixMulNxmInt.gridSizeX dimX1 dimX2 blockSize)
                        (MatrixMulNxmInt.gridSizeY dimY1 dimY2 blockSize) in
  let blockDim := dim3_2 blockSize blockSize in
  forall i,
    launch (MatrixMulNxmInt.matrixMul a b dimX1 dimY1 dimX2 blockDim)
           gridDim blockDim c i
    = if (0 <=? i) && (i <? dimY1 * dimX2)
      then int32 (dot a b dimX1 dimX2 (i mod dimX2) (i / dimX2))
      else c i.
Proof.
  intros HX1 HY1 HX2 HY2 Hbs H1X1 H1Y1 H1X2 Heq Hp HA HB HC gridDim blockDim i.
  destruct (matrixMul_launch_product a b c dimX1 dimY1 dimX2 dimY2 blockSize)
    as [Hin Hout]; try assumption.
  fold gridDim blockDim in Hin, Hout.
  destruct (Z.leb_spec 0 i), (Z.ltb_spec i (dimY1 * dimX2)); cbn [andb];
    try (apply Hout; lia).
  unfold is_uint32 in *.
  pose proof (Z.div_mod i dimX2 ltac:(lia)) as Hd.
  pose proof (Z.mod_pos_bound i dimX2 ltac:(lia)) as Hm.
  assert (Hq : 0 <= i / dimX2 < dimY1).
  { split; [apply Z.div_pos; lia|]. apply Z.div_lt_upper_bound; lia. }
  replace i with (i / dimX2 * dimX2 + i mod dimX2) at 1 by lia.
  now apply Hin.
Qed.

Lemma matrixMul_launch_fills_result_witness :
  launch (MatrixMulNxmInt.matrixMul
            (fun i => nth (Z.to_nat i) [1; 2; 3; 4; 5; 6] 0)
            (fun i => nth (Z.to_nat i) [1; 0; 0; 1; 1; 1] 0)
            3 2 2 (dim3_2 2 2))
         (dim3_2 (MatrixMulNxmInt.gridSizeX 3 2 2) (MatrixMulNxmInt.gridSizeY 2 3 2))
         (dim3_2 2 2) (fun _ => 0) 3
  = 11.
Proof.
  rewrite (matrixMul_launch_fills_result
             (fun i => nth (Z.to_nat i) [1; 2; 3; 4; 5; 6] 0)
             (fun i => nth (Z.to_nat i) [1; 0; 0; 1; 1; 1] 0)
             (fun _ => 0) 3 2 2 3 2);
    try (unfold is_uint32; lia); reflexivity.
Defined.

(** X4. The launch that [main] of vector_sum_float_opt.cu makes leaves
    a[i] + b[i] in every element i < vectorDim of the result and leaves
    the memory past the vector as it was, for every vectorDim >= 1 and
    block size >= 1 whose sum vectorDim + blockSize - 1 is an
    [unsigned int]. *)
Theorem vectorAdd_launch_sums
    (P : Real.precision) (a b c : Z -> Real.REAL) (vectorDim blockSize : Z) :
  1 <= vectorDim -> 1 <= blockSize -> vectorDim + blockSize - 1 < 2 ^ 32 ->
  forall i,
    launch (VectorSumFloatOpt.vectorAdd P a b vectorDim (dim3_1 blockSize))
           (dim3_1 (VectorSumFloatOpt.gridSize vectorDim blockSize))
           (dim3_1 blockSize) c i
    = if (0 <=? i) && (i <? vectorDim) then Real.add P (a i) (b i) else c i.
Proof.
  intros Hd Hb Hs i.
  destruct (vectorAdd_launch_covering P a b c vectorDim
              (VectorSumFloatOpt.gridSize vectorDim blockSize) blockSize)
    as [Hin Hout].
  - unfold is_uint32. lia.
  - assumption.
  - rewrite gridSize_ceil by assumption.
    destruct (ceil_div_spec vectorDim blockSize Hb). lia.
  - destruct (Z.leb_spec 0 i), (Z.ltb_spec i vectorDim); cbn [andb];
      try (apply Hout; lia). apply Hin. lia.
Qed.

Lemma vectorAdd_launch_sums_witness :
  launch (VectorSumFloatOpt.vectorAdd Real.Single
            (fun _ => S754_finite false 8388608 (-23))
            (fun _ => S754_finite false 8388608 (-22)) 5 (dim3_1 4))
         (dim3_1 (VectorSumFloatOpt.gridSize 5 4)) (dim3_1 4)
         (fun _ => S754_nan) 4
  = S754_finite false 12582912 (-22).
Proof.
  rewrite (vectorAdd_launch_sums Real.Single
             (fun _ => S754_finite false 8388608 (-23))
             (fun _ => S754_finite false 8388608 (-22)) (fun _ => S754_nan) 5 4);
    try lia; reflexivity.
Defined.

(** X5. The launch that either version of matrix_add_nxm_float.cu makes
    leaves a[i] + b[i] in every element i < dimX * dimY of the result and
    leaves the memory past the matrix as it was, for every block size
    >= 1: also for block sizes with which thread coordinates wrap, the
    threads that then share a coordinate store the same value. *)
Theorem matrixAdd_launch_sums
    (P : Real.precision) (a b c : Z -> Real.REAL) (dimX dimY blockSize : Z) :
  is_uint32 dimX -> is_uint32 dimY -> is_uint32 blockSize -> 1 <= blockSize ->
  dimX * dimY <= 2 ^ 32 ->
  let gridDim := dim3_2 (Host.grid_size_of dimX blockSize)
                        (Host.grid_size_of dimY blockSize) in
  let blockDim := dim3_2 blockSize blockSize in
  forall i,
    launch (MatrixAddNxmFloat.matrixAdd P a b dimX dimY blockDim)
           gridDim blockDim c i
    = (if (0 <=? i) && (i <? dimX * dimY) then Real.add P (a i) (b i) else c i)
    /\
    launch (MatrixAddNxmFloatMain.add P a b dimX dimY blockDim)
           gridDim blockDim c i
    = (if (0 <=? i) && (i <? dimX * dimY) then Real.add P (a i) (b i) else c i).
Proof.
  intros HX HY Hbs H1 Hn gridDim blockDim i.
  rewrite (launch_ext (MatrixAddNxmFloatMain.add P a b dimX dimY blockDim)
             (MatrixAddNxmFloat.matrixAdd P a b dimX dimY blockDim))
    by (intros t; apply add_is_matrixAdd).
  assert (launch (MatrixAddNxmFloat.matrixAdd P a b dimX dimY blockDim)
                 gridDim blockDim c i
          = (if (0 <=? i) && (i <? dimX * dimY)
             then Real.add P (a i) (b i) else c i)); [|split; assumption].
  destruct (matrixAdd_launch_covering P a b c dimX dimY
              (Host.grid_size_of dimX blockSize)
              (Host.grid_size_of dimY blockSize) blockSize)
    as [Hin Hout]; try assumption; try (now apply matrix_grid_covers).
  destruct (Z.leb_spec 0 i), (Z.ltb_spec i (dimX * dimY)); cbn [andb];
    try (apply Hout; lia). apply Hin. lia.
Qed.

Lemma matrixAdd_launch_sums_witness :
  launch (MatrixAddNxmFloat.matrixAdd Real.Double
            (fun _ => S754_finite false 8388608 (-23))
            (fun _ => S754_finite false 8388608 (-22)) 3 2 (dim3_2 2 2))
         (dim3_2 (Host.grid_size_of 3 2) (Host.grid_size_of 2 2)) (dim3_2 2 2)
         (fun _ => S754_nan) 5
  = Real.add Real.Double (S754_finite false 8388608 (-23))
                         (S754_finite false 8388608 (-22)).
Proof.
  destruct (matrixAdd_launch_sums Real.Double
              (fun _ => S754_finite false 8388608 (-23))
              (fun _ => S754_finite false 8388608 (-22)) (fun _ => S754_nan) 3 2 2
              ltac:(unfold is_uint32; lia) ltac:(unfold is_uint32; lia)
              ltac:(unfold is_uint32; lia) ltac:(lia) ltac:(lia) 5) as [H _].
  exact H.
Defined.

(** X6. The kernel [matrixAdd] of part_000 (which returns early when
    [iX >= dimX || iY >= dimY]) and the kernel [add] of part_001 (which
    stores when [iX < dimX && iY < dimY]) are the same kernel: every
    thread performs the same store, and every launch leaves the same
    memory. *)
Theorem matrix_sum_kernels_agree
    (P : Real.precision) (a b c : Z -> Real.REAL) (dimX dimY : Z)
    (gridDim blockDim : dim3) :
  (forall t,
     MatrixAddNxmFloat.matrixAdd P a b dimX dimY blockDim t
     = MatrixAddNxmFloatMain.add P a b dimX dimY blockDim t)
  /\
  (forall i,
     launch (MatrixAddNxmFloat.matrixAdd P a b dimX dimY blockDim)
            gridDim blockDim c i
     = launch (MatrixAddNxmFloatMain.add P a b dimX dimY blockDim)
              gridDim blockDim c i).
Proof.
  split.
  - intros t. symmetry. apply add_is_matrixAdd.
  - intros i.
    rewrite (launch_ext (MatrixAddNxmFloatMain.add P a b dimX dimY blockDim)
               (MatrixAddNxmFloat.matrixAdd P a b dimX dimY blockDim))
      by (intros t; apply add_is_matrixAdd).
    reflexivity.
Qed.

(** X7. The launch [add<<< 1, N >>>] of addvec_threads.cu leaves
    a[i] + b[i], in [int] arithmetic, in each of the N = 512 elements of
    the result and touches nothing else. *)
Theorem add_launch_sums (a b c : Z -> Z) :
  forall i,
    launch (AddvecThreads.add a b) AddvecThreads.gridDim AddvecThreads.blockDim c i
    = if (0 <=? i) && (i <? AddvecThreads.N) then int32 (a i + b i) else c i.
Proof.
  intros i. destruct (add_launch_covering a b c) as [Hin Hout].
  destruct (Z.leb_spec 0 i), (Z.ltb_spec i AddvecThreads.N); cbn [andb];
    try (apply Hout; lia). apply Hin. lia.
Qed.

(** ** Threads of one launch do not share an output element *)

Section Conflicts.

Lemma unit_axis v : 0 <= v < 1 -> v = 0.
Proof. lia. Qed.

(** Two threads of a launch with the same coordinates are the same
    thread, when no coordinate wraps. *)
Lemma same_coordinates g k t t' :
  dim_z g = 1 -> dim_z k = 1 ->
  dim_x g * dim_x k <= 2 ^ 32 -> dim_y g * dim_y k <= 2 ^ 32 ->
  in_launch g k t -> in_launch g k t' ->
  coord_x k t = coord_x k t' -> coord_y k t = coord_y k t' -> t = t'.
Proof.
  intros Hgz Hkz Hx Hy Hin Hin' Ex Ey.
  destruct t as [[bx by_ bz] [tx ty tz]], t' as [[bx' by' bz'] [tx' ty' tz']].
  unfold in_launch in Hin, Hin'. cbn in Hin, Hin'.
  unfold coord_x, coord_y in Ex, Ey. cbn in Ex, Ey.
  destruct Hin as (Hbx & Hby & Hbz & Htx & Hty & Htz).
  destruct Hin' as (Hbx' & Hby' & Hbz' & Htx' & Hty' & Htz').
  assert (Hsx : 1 <= dim_x k) by lia. assert (Hsy : 1 <= dim_y k) by lia.
  destruct (axis_unique _ _ bx tx _ Hsx Hx Hbx Htx eq_refl) as [Eb Et].
  destruct (axis_unique _ _ bx' tx' _ Hsx Hx Hbx' Htx' (eq_sym Ex)) as [Eb' Et'].
  destruct (axis_unique _ _ by_ ty _ Hsy Hy Hby Hty eq_refl) as [Fb Ft].
  destruct (axis_unique _ _ by' ty' _ Hsy Hy Hby' Hty' (eq_sym Ey)) as [Fb' Ft'].
  f_equal; f_equal; lia.
Qed.

(** The offset of a matrix element determines the coordinates. *)
Lemma matrix_offset_coordinates dimX dimY x y x' y' :
  dimX * dimY <= 2 ^ 32 ->
  0 <= x < dimX -> 0 <= y < dimY -> 0 <= x' < dimX -> 0 <= y' < dimY ->
  uint32 (uint32 (y * dimX) + x) = uint32 (uint32 (y' * dimX) + x') ->
  x = x' /\ y = y'.
Proof.
  intros Hn Hx Hy Hx' Hy' E.
  rewrite !uint32_add_l in E.
  rewrite (uint32_small (y * dimX + x)), (uint32_small (y' * dimX + x')) in E by nia.
  now apply (offset_injective dimX).
Qed.

End Conflicts.

(** X8. In a dispatch whose geometry has the shape the kernel expects
    and in which no thread coordinate and no output offset wraps, two
    different threads never store to the same element: for every kernel
    of the sources, threads that store to the same offset are the same
    thread. *)
Theorem no_write_conflict (d : dispatch) (t t' : thread) (pos : Z) :
  fits d ->
  in_launch (grid_of d) (block_of d) t ->
  in_launch (grid_of d) (block_of d) t' ->
  stored_at d t = Some pos -> stored_at d t' = Some pos ->
  t = t'.
Proof.
  intros (Hgz & Hkz & Hx & Hfit) Hin Hin' Hs Hs'.
  pose proof (coord_x_nonneg (block_of d) t).
  pose proof (coord_y_nonneg (block_of d) t).
  pose proof (coord_x_nonneg (block_of d) t').
  pose proof (coord_y_nonneg (block_of d) t').
  destruct d as [P a b dim g k | P a b dimX dimY g k | P a b dimX dimY g k
                | a b dimX1 dimY1 dimX2 g k | a b];
    cbn [stored_at grid_of block_of output_elements] in *.
  - destruct Hfit as [Hgy Hky].
    destruct (VectorSumFloatOpt.vectorAdd P a b dim k t) as [[q v]|] eqn:E;
      [|discriminate].
    destruct (VectorSumFloatOpt.vectorAdd P a b dim k t') as [[q' v']|] eqn:E';
      [|discriminate].
    cbn in Hs, Hs'. injection Hs as ->. injection Hs' as ->.
    destruct (vectorAdd_stores_inv _ _ _ _ _ _ _ _ E) as (Hp & _).
    destruct (vectorAdd_stores_inv _ _ _ _ _ _ _ _ E') as (Hp' & _).
    apply (same_coordinates g k); try assumption; try lia.
    unfold coord_y. destruct Hin as (_ & Hby & _ & _ & Hty & _).
    destruct Hin' as (_ & Hby' & _ & _ & Hty' & _).
    rewrite Hgy in Hby, Hby'. rewrite Hky in Hty, Hty'.
    now rewrite (unit_axis _ Hby), (unit_axis _ Hby'),
                (unit_axis _ Hty), (unit_axis _ Hty').
  - destruct Hfit as [Hy Hn].
    destruct (MatrixAddNxmFloat.matrixAdd P a b dimX dimY k t) as [[q v]|] eqn:E;
      [|discriminate].
    destruct (MatrixAddNxmFloat.matrixAdd P a b dimX dimY k t') as [[q' v']|] eqn:E';
      [|discriminate].
    cbn in Hs, Hs'. injection Hs as ->. injection Hs' as ->.
    destruct (matrixAdd_stores_inv _ _ _ _ _ _ _ _ _ E) as (Hcx & Hcy & Hp & _).
    destruct (matrixAdd_stores_inv _ _ _ _ _ _ _ _ _ E') as (Hcx' & Hcy' & Hp' & _).
    destruct (matrix_offset_coordinates dimX dimY
                (coord_x k t) (coord_y k t) (coord_x k t') (coord_y k t'));
      try lia; try congruence.
    now apply (same_coordinates g k).
  - destruct Hfit as [Hy Hn]. rewrite !add_is_matrixAdd in Hs, Hs'.
    destruct (MatrixAddNxmFloat.matrixAdd P a b dimX dimY k t) as [[q v]|] eqn:E;
      [|discriminate].
    destruct (MatrixAddNxmFloat.matrixAdd P a b dimX dimY k t') as [[q' v']|] eqn:E';
      [|discriminate].
    cbn in Hs, Hs'. injection Hs as ->. injection Hs' as ->.
    destruct (matrixAdd_stores_inv _ _ _ _ _ _ _ _ _ E) as (Hcx & Hcy & Hp & _).
    destruct (matrixAdd_stores_inv _ _ _ _ _ _ _ _ _ E') as (Hcx' & Hcy' & Hp' & _).
    destruct (matrix_offset_coordinates dimX dimY
                (coord_x k t) (coord_y k t) (coord_x k t') (coord_y k t'));
      try lia; try congruence.
    now apply (same_coordinates g k).
  - destruct Hfit as [Hy Hn].
    unfold MatrixMulNxmInt.matrixMul in Hs, Hs'.
    destruct (coord_x k t >=? dimX2) eqn:EX; [discriminate|].
    destruct (coord_y k t >=? dimY1) eqn:EY; [discriminate|].
    destruct (coord_x k t' >=? dimX2) eqn:EX'; [discriminate|].
    destruct (coord_y k t' >=? dimY1) eqn:EY'; [discriminate|].
    cbn in Hs, Hs'. injection Hs as Hp. injection Hs' as Hp'.
    rewrite Z.geb_leb in EX, EY, EX', EY'. apply Z.leb_gt in EX, EY, EX', EY'.
    destruct (matrix_offset_coordinates dimX2 dimY1
                (coord_x k t) (coord_y k t) (coord_x k t') (coord_y k t'));
      try lia; try congruence.
    now apply (same_coordinates g k).
  - destruct Hfit as [Hgy Hky].
    cbn in Hs, Hs'. injection Hs as Hp. injection Hs' as Hp'.
    apply (same_coordinates AddvecThreads.gridDim AddvecThreads.blockDim);
      try assumption; try (cbn; unfold AddvecThreads.N; lia).
    + destruct Hin as (Hbx & _ & _ & Htx & _).
      destruct Hin' as (Hbx' & _ & _ & Htx' & _).
      cbn in Hbx, Hbx', Htx, Htx'. unfold coord_x. cbn.
      rewrite (unit_axis _ Hbx), (unit_axis _ Hbx'). f_equal. lia.
    + destruct Hin as (_ & Hby & _ & _ & Hty & _).
      destruct Hin' as (_ & Hby' & _ & _ & Hty' & _).
      cbn in Hby, Hby', Hty, Hty'. unfold coord_y. cbn.
      now rewrite (unit_axis _ Hby), (unit_axis _ Hby'),
                  (unit_axis _ Hty), (unit_axis _ Hty').
Qed.

Lemma no_write_conflict_witness :
  mk_thread (mk_dim3 1 0 0) (mk_dim3 0 1 0)
  = thread_at 2 2 1.
Proof.
  apply (no_write_conflict
           (LaunchMatrixMul (fun _ => 0) (fun _ => 0) 3 2 3 (dim3_2 2 1) (dim3_2 2 2))
           _ _ 5).
  - unfold fits. cbn. lia.
  - unfold in_launch. cbn. lia.
  - unfold in_launch. cbn. lia.
  - reflexivity.
  - reflexivity.
Defined.

(** ** Every run of the host programs *)


(** X9. The checks of the arguments decide the run before anything else
    happens.  Arguments that fail a check give a run that consists of one
    message on stderr --- the usage line or the complaint about one
    argument --- and [exit(1)]; with arguments that pass every check the
    first thing a program that takes arguments does is to query the
    device. *)
Theorem argument_checks_decide
    (p : program) (ints : list Z) (fmem : memory Real.REAL) (imem : memory Z)
    (env : nat -> bool) :
  let r := run p ints fmem imem (Host.boot env) in
  (accepted p ints = false ->
     exists m,
       r = (inl 1, Host.mk_world env [(Host.fprintf_stderr m, true)] [])
       /\ (m = Host.Usage \/ classify m <> None))
  /\
  (accepted p ints = true -> p <> Addvec -> passes_checks (Host.trace (snd r))).
Proof.
  intros r. subst r. split.
  - intros Hacc. unfold accepted in Hacc.
    destruct p as [P | P | P cmp | |];
      cbn [wanted_argc dimensions forallb] in Hacc;
      rewrite ?andb_false_iff, ?Z.leb_gt, ?Z.eqb_neq in Hacc.
    1-4: repeat (host_unfold;
           first [ solve [exfalso; intuition (discriminate || congruence || lia)]
                 | solve [eexists; split;
                          [reflexivity | (now left) || (right; discriminate)]]
                 | check_split
                 | match goal with
                   | |- context [if (if Host.IS_POWER_OF_2 ?v then false else true)
                                 then _ else _] =>
                       destruct (Host.IS_POWER_OF_2 v) eqn:?
                   end ]).
    exfalso. unfold Host.argc in Hacc.
    destruct Hacc as [[Hacc | Hacc] | Hacc]; try discriminate. lia.
  - intros Hacc Hp. unfold passes_checks.
    destruct p as [P | P | P cmp | |]; try congruence.
    + host_accept (VectorSum P) ints Hacc.
      host_run env; do 2 eexists; reflexivity.
    + host_accept (MatrixAdd P) ints Hacc.
      host_run env; do 2 eexists; reflexivity.
    + host_accept (MatrixAddMain P cmp) ints Hacc.
      host_run env; do 2 eexists; reflexivity.
    + host_accept MatrixMul ints Hacc.
      host_run env; do 2 eexists; reflexivity.
Qed.

Lemma argument_checks_decide_witness :
  exists m,
    run (MatrixAdd Real.Double) [4; 0; 2]
        (constant_memory (S754_zero false)) (constant_memory 0)
        (Host.boot all_succeed)
    = (inl 1, Host.mk_world all_succeed [(Host.fprintf_stderr m, true)] [])
    /\ (m = Host.Usage \/ classify m <> None).
Proof.
  apply (argument_checks_decide (MatrixAdd Real.Double) [4; 0; 2]
           (constant_memory (S754_zero false)) (constant_memory 0) all_succeed).
  reflexivity.
Defined.

(** X10. With fewer arguments than the program wants, the run is the
    usage line on stderr and [exit(1)], whatever the arguments given
    are: the count is checked before any argument is looked at. *)
Theorem too_few_arguments_usage
    (p : program) (ints : list Z) (fmem : memory Real.REAL) (imem : memory Z)
    (env : nat -> bool) :
  Host.argc ints < wanted_argc p ->
  run p ints fmem imem (Host.boot env)
  = (inl 1, Host.mk_world env [(Host.fprintf_stderr Host.Usage, true)] []).
Proof.
  intros Hargc.
  destruct p as [P | P | P cmp | |]; cbn [wanted_argc] in Hargc.
  1-4: host_unfold; rewrite (proj2 (Z.ltb_lt _ _)) by lia; reflexivity.
  unfold Host.argc in Hargc. lia.
Qed.

Lemma too_few_arguments_usage_witness :
  run MatrixMul [0; -7; 3]
      (constant_memory (S754_zero false)) (constant_memory 0)
      (Host.boot (fails_at 0))
  = (inl 1, Host.mk_world (fails_at 0) [(Host.fprintf_stderr Host.Usage, true)] []).
Proof.
  apply (too_few_arguments_usage MatrixMul [0; -7; 3]).
  vm_compute. reflexivity.
Defined.

(** X11. The checks [< 1] are made on [unsigned int] variables, so they
    catch the value 0 only: whenever a program complains that an argument
    is not >= 1, the value it reports is 0.  A negative argument is not
    refused: the two matrix sums accept three negative arguments and go
    on to query the device. *)
Theorem only_zero_is_below_one
    (p : program) (ints : list Z) (fmem : memory Real.REAL) (imem : memory Z)
    (env : nat -> bool) :
  let tr := Host.trace (snd (run p ints fmem imem (Host.boot env))) in
  (forall name got ok,
     In (Host.fprintf_stderr (Host.ExpectedGE1 name got), ok) tr -> got = 0)
  /\
  (wants_power_of_2 p = false -> p <> Addvec ->
   wanted_argc p <= Host.argc ints ->
   Forall (fun v => - 2 ^ 31 <= v < 0) ints ->
   passes_checks tr).
Proof.
  intros tr. subst tr. split.
  - intros name got ok.
    assert (Hr : forall i, 0 <= Host.unsigned_arg ints i)
      by (intros i; apply uint32_range).
    destruct p as [P | P | P cmp | |]; host_run env; cbn;
      intros Hin;
      repeat match goal with
             | H : _ \/ _ |- _ => destruct H
             | H : False |- _ => destruct H
             | H : (_, _) = (_, _) |- _ =>
                 first [discriminate H | injection H as ? ? ?]
             end;
      subst;
      repeat match goal with
             | H : (_ <? 1) = true |- _ => apply Z.ltb_lt in H
             end;
      match goal with
      | |- Host.unsigned_arg ints ?i = 0 => specialize (Hr i); lia
      end.
  - intros Hw Hp Hargc Hneg.
    assert (Hpos : forall i, (i < List.length ints)%nat ->
                             (Host.unsigned_arg ints i <? 1) = false).
    { intros i Hi. apply Z.ltb_ge. unfold Host.unsigned_arg, uint32.
      rewrite Forall_forall in Hneg.
      specialize (Hneg (nth i ints 0) (nth_In ints 0 Hi)).
      rewrite <- (Z.mod_add _ 1) by lia. rewrite Z.mod_small; lia. }
    unfold passes_checks.
    destruct p as [P | P | P cmp | |]; try discriminate Hw; try congruence;
      cbn [wanted_argc] in Hargc; unfold Host.argc in Hargc.
    + host_unfold. fold (Host.argc ints).
      rewrite (proj2 (Z.ltb_ge (Host.argc ints) 4)), !Hpos
        by (unfold Host.argc; lia).
      host_run env; do 2 eexists; reflexivity.
    + host_unfold. fold (Host.argc ints).
      rewrite (proj2 (Z.ltb_ge (Host.argc ints) 4)), !Hpos
        by (unfold Host.argc; lia).
      host_run env; do 2 eexists; reflexivity.
Qed.

Lemma only_zero_is_below_one_witness :
  passes_checks
    (Host.trace
       (snd (run (MatrixAdd Real.Single) [-1; -2; -3]
               (constant_memory (S754_zero false)) (constant_memory 0)
               (Host.boot (fails_at 0))))).
Proof.
  apply (only_zero_is_below_one (MatrixAdd Real.Single) [-1; -2; -3]
           (constant_memory (S754_zero false)) (constant_memory 0) (fails_at 0)).
  - reflexivity.
  - discriminate.
  - vm_compute. discriminate.
  - repeat (apply Forall_cons; [lia|]). apply Forall_nil.
Defined.

(** X12. Every run of every program --- whatever the arguments, whichever
    calls fail --- respects the discipline of the device buffers: no
    buffer is allocated twice, every copy names a buffer that is
    allocated at that moment, the launch finds all three buffers
    allocated, and only an allocated buffer is freed. *)
Theorem device_buffers_used_while_allocated
    (p : program) (ints : list Z) (fmem : memory Real.REAL) (imem : memory Z)
    (env : nat -> bool) :
  lifecycle [] (Host.trace (snd (run p ints fmem imem (Host.boot env)))) = true.
Proof.
  destruct p as [P | P | P cmp | |]; host_run env; reflexivity.
Qed.

(** X13. No program goes on after a call whose result it checks has
    failed.  In every run, once a call wrapped in [HANDLE_ERROR] or
    [HANDLE_NULL] has failed, the program makes no further CUDA call, no
    allocation, no launch and no free; and in a run that returns from
    [main] every such call succeeded. *)
Theorem checked_failure_ends_run
    (p : program) (ints : list Z) (fmem : memory Real.REAL) (imem : memory Z)
    (env : nat -> bool) :
  let r := run p ints fmem imem (Host.boot env) in
  failures_final (Host.trace (snd r)) = true
  /\ (forall code, fst r = inr code ->
        checked_succeeded (Host.trace (snd r)) = true).
Proof.
  intros r. subst r.
  destruct p as [P | P | P cmp | |]; host_run env;
    (split; [reflexivity|]);
    intros code Hc; first [discriminate Hc | reflexivity].
Qed.

Lemma checked_failure_ends_run_witness :
  checked_succeeded
    (Host.trace
       (snd (run MatrixMul [2; 2; 2; 2; 2]
               (constant_memory (S754_zero false)) (constant_memory 0)
               (Host.boot all_succeed)))) = true.
Proof.
  destruct (checked_failure_ends_run MatrixMul [2; 2; 2; 2; 2]
              (constant_memory (S754_zero false)) (constant_memory 0) all_succeed)
    as [_ H].
  apply (H 0). reflexivity.
Defined.

(** X14. Every run respects the discipline of the host arrays: no array
    is allocated twice, an array is freed only while allocated and by the
    function that goes with its allocation ([free] after [malloc],
    [cudaFreeHost] after [cudaMallocHost]); and when the program returns
    from [main] no host array is left allocated. *)
Theorem host_arrays_freed_by_their_allocator
    (p : program) (ints : list Z) (fmem : memory Real.REAL) (imem : memory Z)
    (env : nat -> bool) :
  let r := run p ints fmem imem (Host.boot env) in
  exists held,
    host_track [] (Host.trace (snd r)) = Some held
    /\ (forall code, fst r = inr code -> held = []).
Proof.
  intros r. subst r.
  destruct p as [P | P | P cmp | |]; host_run env;
    eexists; (split; [reflexivity|]);
    intros code Hc; first [discriminate Hc | reflexivity].
Qed.

Lemma host_arrays_freed_by_their_allocator_witness :
  exists held,
    host_track []
      (Host.trace
         (snd (run (VectorSum Real.Single) [8; 4]
                 (constant_memory (S754_zero false)) (constant_memory 0)
                 (Host.boot all_succeed)))) = Some held
    /\ held = [].
Proof.
  destruct (host_arrays_freed_by_their_allocator (VectorSum Real.Single) [8; 4]
              (constant_memory (S754_zero false)) (constant_memory 0) all_succeed)
    as (held & Ht & Hr).
  exists held. split; [exact Ht|]. apply (Hr 0). reflexivity.
Defined.

(** ** The check at the end of addvec_threads.cu *)

Lemma find_nowhere {A : Type} (f : A -> bool) (l : list A) :
  (forall x, In x l -> f x = false) -> find f l = None.
Proof.
  induction l as [|x l IH]; intros H; cbn; [reflexivity|].
  rewrite (H x) by now left. apply IH. intros y Hy. apply H. now right.
Qed.

Lemma Addvec_elements : AddvecThreads.size / 4 = AddvecThreads.N.
Proof. reflexivity. Qed.

(** X15. The test of the checking loop of addvec_threads.cu,
    [c[i] != a[i] + b[i]], holds for no [i < N] on what the program reads
    back from the device: with [a] and [b] copied to the device, [add]
    launched as [add<<< 1, N >>>] and the result copied back, the loop
    finds no mismatch, whatever [a] and [b] are and whatever host and
    device memory held before.  (The sums are taken in wrap-around [int]
    arithmetic on the device and on the host alike.) *)
Theorem addvec_check_finds_no_mismatch
    (a b on_host_c in_dev_a in_dev_b in_dev_c : Z -> Z) :
  AddvecThreads.first_mismatch a b
    (memcpy on_host_c
       (launch (AddvecThreads.add
                  (memcpy in_dev_a a (AddvecThreads.size / 4))
                  (memcpy in_dev_b b (AddvecThreads.size / 4)))
               AddvecThreads.gridDim AddvecThreads.blockDim in_dev_c)
       (AddvecThreads.size / 4))
  = None.
Proof.
  rewrite Addvec_elements. unfold AddvecThreads.first_mismatch.
  apply find_nowhere. intros i Hi.
  apply In_zrange in Hi. rewrite Z2Nat.id in Hi by (unfold AddvecThreads.N; lia).
  rewrite memcpy_inside by lia.
  destruct (add_launch_covering (memcpy in_dev_a a AddvecThreads.N)
              (memcpy in_dev_b b AddvecThreads.N) in_dev_c) as [Hin _].
  rewrite Hin by lia. rewrite !memcpy_inside by lia.
  now rewrite Z.eqb_refl.
Qed.

(** ** random_ints *)

Section RandomInts.

Variable rand : nat -> Z.

Lemma random_ints_loop_spec n : n < 2 ^ 31 ->
  forall fuel i p drawn,
    0 <= i <= n -> fuel = Z.to_nat (n - i) ->
    (forall j,
       fst (random_ints_loop rand n fuel i p drawn) j
       = if (i <=? j) && (j <? n) then rand (drawn + Z.to_nat (j - i))%nat
         else p j)
    /\ snd (random_ints_loop rand n fuel i p drawn) = (drawn + fuel)%nat.
Proof.
  intros Hn. induction fuel as [|fuel IH]; intros i p drawn Hi Hf.
  - cbn. split; [|lia]. intros j.
    destruct (Z.leb_spec i j), (Z.ltb_spec j n); cbn; try reflexivity. lia.
  - cbn [random_ints_loop].
    assert (i < n) by lia.
    rewrite (proj2 (Z.ltb_lt i n)) by assumption.
    rewrite int32_small by lia.
    destruct (IH (i + 1) (fun j => if j =? i then rand drawn else p j) (S drawn)
                ltac:(lia) ltac:(lia)) as [Hp Hd].
    split; [|rewrite Hd; lia].
    intros j. rewrite Hp.
    destruct (Z.leb_spec (i + 1) j), (Z.ltb_spec j n), (Z.leb_spec i j),
             (Z.eqb_spec j i); cbn [andb]; try lia; try reflexivity.
    + f_equal. lia.
    + subst j. f_equal. rewrite Z.sub_diag. cbn. lia.
Qed.

End RandomInts.

(** X16. [random_ints(p, n)] writes the next [n] values of [rand()], in
    the order drawn, to [p[0..n-1]] and nothing else; with [n <= 0] it
    draws nothing and leaves [p] alone.  Two calls in a row, as [main]
    makes them for [a] and [b], hand [a] the first [n] values of the
    sequence and [b] the [n] that follow. *)
Theorem random_ints_fills_in_order
    (rand : nat -> Z) (p q : Z -> Z) (n : Z) (drawn : nat) :
  is_int32 n ->
  let r := random_ints rand p n drawn in
  let r' := random_ints rand q n (snd r) in
  (forall j, fst r j = if (0 <=? j) && (j <? n)
                       then rand (drawn + Z.to_nat j)%nat else p j)
  /\ snd r = (drawn + Z.to_nat n)%nat
  /\ (forall j, fst r' j = if (0 <=? j) && (j <? n)
                           then rand (drawn + Z.to_nat n + Z.to_nat j)%nat
                           else q j).
Proof.
  intros Hn r r'. unfold is_int32 in Hn.
  assert (Hspec : forall p0 d,
            (forall j, fst (random_ints rand p0 n d) j
                       = if (0 <=? j) && (j <? n)
                         then rand (d + Z.to_nat j)%nat else p0 j)
            /\ snd (random_ints rand p0 n d) = (d + Z.to_nat n)%nat).
  { intros p0 d. unfold random_ints.
    destruct (Z.le_gt_cases n 0) as [H0 | H0].
    - replace (Z.to_nat n) with 0%nat by lia. cbn. split; [|lia].
      intros j. destruct (Z.leb_spec 0 j), (Z.ltb_spec j n); cbn; try reflexivity.
      lia.
    - destruct (random_ints_loop_spec rand n ltac:(lia) (Z.to_nat n) 0 p0 d
                  ltac:(lia) ltac:(f_equal; lia)) as [Hp Hd].
      split; [|exact Hd]. intros j. rewrite Hp.
      now rewrite Z.sub_0_r. }
  destruct (Hspec p drawn) as [Hp Hd].
  split; [exact Hp|]. split; [exact Hd|].
  intros j. unfold r'. destruct (Hspec q (snd r)) as [Hq _].
  rewrite Hq. unfold r. now rewrite Hd.
Qed.

Lemma random_ints_fills_in_order_witness :
  fst (random_ints (fun k => Z.of_nat k * 10) (fun _ => -1) 4
         (snd (random_ints (fun k => Z.of_nat k * 10) (fun _ => -1) 4 0))) 2
  = 60.
Proof.
  destruct (random_ints_fills_in_order (fun k => Z.of_nat k * 10)
              (fun _ => -1) (fun _ => -1) 4 0
              ltac:(unfold is_int32; lia)) as (_ & _ & H).
  rewrite H. reflexivity.
Defined.

(** ** The host functions that drive the device *)

(** Unfolding a host function down to the calls it makes, in a world
    given by its parts. *)
Ltac gpu_unfold :=
  cbv beta iota zeta delta
    [MatrixMulNxmInt.gpuMatrixMul VectorSumFloatOpt.gpuVectorAdd
     MatrixAddNxmFloat.gpuMatrixAdd
     Host.bind Host.ret Host.exit Host.invoke Host.perform
     Host.HANDLE_ERROR Host.oracle Host.trace Host.outstanding fst snd].

(** Running a host function whose calls all succeed. *)
Ltac gpu_run Hall := gpu_unfold; repeat (rewrite Hall; gpu_unfold).

Section Sizes.

Lemma Real_sizeof_pos P : 1 <= Real.sizeof P.
Proof. destruct P; cbn; lia. Qed.

Lemma VectorSum_size_exact P n :
  0 <= n -> n * Real.sizeof P < 2 ^ 32 ->
  VectorSumFloatOpt.size_of P n / Real.sizeof P = n.
Proof.
  intros H0 H. pose proof (Real_sizeof_pos P).
  rewrite VectorSum_size_of_wrap, Z.mod_small by nia.
  apply Z.div_mul. lia.
Qed.

Lemma MatrixAdd_size_exact P u v :
  0 <= u * v -> u * v * Real.sizeof P < 2 ^ 32 ->
  MatrixAddNxmFloat.size_of P u v / Real.sizeof P = u * v.
Proof.
  intros H0 H. pose proof (Real_sizeof_pos P).
  rewrite MatrixAdd_size_of_wrap, Z.mod_small by nia.
  apply Z.div_mul. lia.
Qed.

End Sizes.

(** X17. [gpuVectorAdd], called where every CUDA call succeeds, with a
    vector whose byte size is an [unsigned int] and a one-dimensional
    geometry that covers the vector, returns: the host array [c] then
    holds a[i] + b[i] in every element i < vectorDim and is unchanged
    beyond, whatever the device memory held before. *)
Theorem gpuVectorAdd_returns_sum
    (P : Real.precision) (mem : memory Real.REAL) (a b c : Z -> Real.REAL)
    (vectorDim g blockSize : Z) (w : Host.world) :
  (forall n, Host.oracle w n = true) ->
  0 <= vectorDim -> vectorDim * Real.sizeof P < 2 ^ 32 ->
  1 <= blockSize -> vectorDim <= g * blockSize ->
  exists c',
    fst (VectorSumFloatOpt.gpuVectorAdd P mem a b c vectorDim
           (dim3_1 g) (dim3_1 blockSize) w) = inr c'
    /\ forall i,
         c' i = if (0 <=? i) && (i <? vectorDim)
                then Real.add P (a i) (b i) else c i.
Proof.
  intros Hall H0 Hsize Hb Hcover.
  pose proof (Real_sizeof_pos P) as Hs.
  destruct w as [o tr out]. cbn [Host.oracle] in Hall.
  gpu_run Hall. eexists. split; [reflexivity|].
  intros i. rewrite !VectorSum_size_exact by assumption.
  unfold memcpy at 1.
  destruct ((0 <=? i) && (i <? vectorDim)) eqn:E; [|reflexivity].
  apply andb_true_iff in E. destruct E as [E1 E2].
  apply Z.leb_le in E1. apply Z.ltb_lt in E2.
  destruct (vectorAdd_launch_covering P
              (memcpy (garbage_dev mem Host.dev_a) a vectorDim)
              (memcpy (garbage_dev mem Host.dev_b) b vectorDim)
              (garbage_dev mem Host.dev_c) vectorDim g blockSize)
    as [Hin _]; try assumption; [unfold is_uint32; nia|].
  rewrite Hin by lia. now rewrite !memcpy_inside by lia.
Qed.

Lemma gpuVectorAdd_returns_sum_witness :
  exists c',
    fst (VectorSumFloatOpt.gpuVectorAdd Real.Single
           (constant_memory S754_nan)
           (fun _ => S754_finite false 8388608 (-23))
           (fun _ => S754_finite false 8388608 (-22))
           (fun _ => S754_zero false) 5 (dim3_1 2) (dim3_1 4)
           (Host.boot all_succeed)) = inr c'
    /\ c' 4 = S754_finite false 12582912 (-22)
    /\ c' 5 = S754_zero false.
Proof.
  destruct (gpuVectorAdd_returns_sum Real.Single (constant_memory S754_nan)
              (fun _ => S754_finite false 8388608 (-23))
              (fun _ => S754_finite false 8388608 (-22))
              (fun _ => S754_zero false) 5 2 4 (Host.boot all_succeed)
              ltac:(reflexivity) ltac:(lia) ltac:(cbn; lia) ltac:(lia) ltac:(lia))
    as (c' & Hr & Hc).
  exists c'. split; [exact Hr|]. rewrite !Hc. split; reflexivity.
Defined.

(** X18. [gpuMatrixAdd], called where every CUDA call succeeds, with a
    matrix whose byte size is an [unsigned int] and a geometry of square
    blocks that covers the matrix, returns: the host array [c] then holds
    a[i] + b[i] in every element i < dimX * dimY and is unchanged
    beyond. *)
Theorem gpuMatrixAdd_returns_sum
    (P : Real.precision) (mem : memory Real.REAL) (a b c : Z -> Real.REAL)
    (matrixDimX matrixDimY gx gy blockSize : Z) (w : Host.world) :
  (forall n, Host.oracle w n = true) ->
  0 <= matrixDimX -> 0 <= matrixDimY ->
  matrixDimX * matrixDimY * Real.sizeof P < 2 ^ 32 ->
  1 <= blockSize ->
  matrixDimX <= gx * blockSize -> matrixDimY <= gy * blockSize ->
  exists c',
    fst (MatrixAddNxmFloat.gpuMatrixAdd P mem a b c matrixDimX matrixDimY
           (dim3_2 gx gy) (dim3_2 blockSize blockSize) w) = inr c'
    /\ forall i,
         c' i = if (0 <=? i) && (i <? matrixDimX * matrixDimY)
                then Real.add P (a i) (b i) else c i.
Proof.
  intros Hall HX HY Hsize Hb HcX HcY.
  pose proof (Real_sizeof_pos P) as Hs.
  destruct w as [o tr out]. cbn [Host.oracle] in Hall.
  gpu_run Hall. eexists. split; [reflexivity|].
  intros i. rewrite !MatrixAdd_size_exact by nia.
  unfold memcpy at 1.
  destruct ((0 <=? i) && (i <? matrixDimX * matrixDimY)) eqn:E; [|reflexivity].
  apply andb_true_iff in E. destruct E as [E1 E2].
  apply Z.leb_le in E1. apply Z.ltb_lt in E2.
  assert (matrixDimX <> 0 /\ matrixDimY <> 0) as [HX0 HY0] by nia.
  destruct (matrixAdd_launch_covering P
              (memcpy (garbage_dev mem Host.dev_a) a (matrixDimX * matrixDimY))
              (memcpy (garbage_dev mem Host.dev_b) b (matrixDimX * matrixDimY))
              (garbage_dev mem Host.dev_c) matrixDimX matrixDimY gx gy blockSize)
    as [Hin _]; try assumption; try (unfold is_uint32; nia).
  rewrite Hin by lia. now rewrite !memcpy_inside by lia.
Qed.

Lemma gpuMatrixAdd_returns_sum_witness :
  exists c',
    fst (MatrixAddNxmFloat.gpuMatrixAdd Real.Double
           (constant_memory S754_nan)
           (fun _ => S754_finite false 8388608 (-23))
           (fun _ => S754_finite false 8388608 (-23))
           (fun _ => S754_zero false) 3 2 (dim3_2 1 1) (dim3_2 3 3)
           (Host.boot all_succeed)) = inr c'
    /\ c' 6 = S754_zero false.
Proof.
  destruct (gpuMatrixAdd_returns_sum Real.Double (constant_memory S754_nan)
              (fun _ => S754_finite false 8388608 (-23))
              (fun _ => S754_finite false 8388608 (-23))
              (fun _ => S754_zero false) 3 2 1 1 3 (Host.boot all_succeed)
              ltac:(reflexivity) ltac:(lia) ltac:(lia) ltac:(cbn; lia)
              ltac:(lia) ltac:(lia) ltac:(lia))
    as (c' & Hr & Hc).
  exists c'. split; [exact Hr|]. rewrite Hc. reflexivity.
Defined.

(** X19. [gpuMatrixMul], called by [main] where every CUDA call succeeds
    and with matrices whose byte sizes are [unsigned int]s, returns: the
    host array [c] then holds the product --- element i the [int] sum
    over k of A[(i / dimX2) * dimX1 + k] * B[k * dimX2 + i mod dimX2] ---
    in every element i < dimY1 * dimX2 and is unchanged beyond. *)
Theorem gpuMatrixMul_returns_product
    (mem : memory Z) (a b c : Z -> Z)
    (matrixDimX1 matrixDimY1 matrixDimX2 matrixDimY2 blockSize : Z)
    (w : Host.world) :
  (forall n, Host.oracle w n = true) ->
  1 <= matrixDimX1 -> 1 <= matrixDimY1 -> 1 <= matrixDimX2 ->
  matrixDimY2 = matrixDimX1 ->
  is_uint32 blockSize -> Host.IS_POWER_OF_2 blockSize = true ->
  matrixDimX1 * matrixDimY1 * 4 < 2 ^ 32 ->
  matrixDimX2 * matrixDimY2 * 4 < 2 ^ 32 ->
  matrixDimY1 * matrixDimX2 * 4 < 2 ^ 32 ->
  exists c',
    fst (MatrixMulNxmInt.gpuMatrixMul mem a b c
           matrixDimX1 matrixDimY1 matrixDimX2 matrixDimY2
           (dim3_2 (MatrixMulNxmInt.gridSizeX matrixDimX1 matrixDimX2 blockSize)
                   (MatrixMulNxmInt.gridSizeY matrixDimY1 matrixDimY2 blockSize))
           (dim3_2 blockSize blockSize) w) = inr c'
    /\ forall i,
         c' i = if (0 <=? i) && (i <? matrixDimY1 * matrixDimX2)
                then int32 (dot a b matrixDimX1 matrixDimX2
                              (i mod matrixDimX2) (i / matrixDimX2))
                else c i.
Proof.
  intros Hall HX1 HY1 HX2 Heq Hbs Hp Ha Hb Hc.
  destruct w as [o tr out]. cbn [Host.oracle] in Hall.
  gpu_run Hall. eexists. split; [reflexivity|].
  intros i. rewrite !MatrixMul_size_exact by nia.
  unfold memcpy at 1.
  destruct ((0 <=? i) && (i <? matrixDimY1 * matrixDimX2)) eqn:E; [|reflexivity].
  apply andb_true_iff in E. destruct E as [E1 E2].
  apply Z.leb_le in E1. apply Z.ltb_lt in E2.
  pose proof (Z.div_mod i matrixDimX2 ltac:(lia)) as Hd.
  pose proof (Z.mod_pos_bound i matrixDimX2 ltac:(lia)) as Hm.
  assert (Hq : 0 <= i / matrixDimX2 < matrixDimY1).
  { split; [apply Z.div_pos; lia|]. apply Z.div_lt_upper_bound; lia. }
  destruct (matrixMul_launch_product
              (memcpy (garbage_dev mem Host.dev_a) a (matrixDimX1 * matrixDimY1))
              (memcpy (garbage_dev mem Host.dev_b) b (matrixDimX2 * matrixDimY2))
              (garbage_dev mem Host.dev_c)
              matrixDimX1 matrixDimY1 matrixDimX2 matrixDimY2 blockSize)
    as [Hprod _]; try assumption; try (unfold is_uint32; nia).
  replace i with (i / matrixDimX2 * matrixDimX2 + i mod matrixDimX2) at 1 by lia.
  rewrite (Hprod _ _ Hm Hq). f_equal. subst matrixDimY2.
  apply dot_ext; [lia | |]; intros k Hk; apply memcpy_inside; nia.
Qed.

Lemma gpuMatrixMul_returns_product_witness :
  exists c',
    fst (MatrixMulNxmInt.gpuMatrixMul (constant_memory 99)
           (fun i => nth (Z.to_nat i) [1; 2; 3; 4; 5; 6] 0)
           (fun i => nth (Z.to_nat i) [1; 0; 0; 1; 1; 1] 0)
           (fun _ => -1) 3 2 2 3
           (dim3_2 (MatrixMulNxmInt.gridSizeX 3 2 2)
                   (MatrixMulNxmInt.gridSizeY 2 3 2))
           (dim3_2 2 2) (Host.boot all_succeed)) = inr c'
    /\ c' 3 = 11 /\ c' 4 = -1.
Proof.
  destruct (gpuMatrixMul_returns_product (constant_memory 99)
              (fun i => nth (Z.to_nat i) [1; 2; 3; 4; 5; 6] 0)
              (fun i => nth (Z.to_nat i) [1; 0; 0; 1; 1; 1] 0)
              (fun _ => -1) 3 2 2 3 2 (Host.boot all_succeed)
              ltac:(reflexivity) ltac:(lia) ltac:(lia) ltac:(lia)
              ltac:(reflexivity) ltac:(unfold is_uint32; lia) ltac:(reflexivity)
              ltac:(lia) ltac:(lia) ltac:(lia))
    as (c' & Hr & Hc).
  exists c'. split; [exact Hr|]. rewrite !Hc. split; reflexivity.
Defined.
